(** * Evaluation harness of SafeRL (scripts/eval.py)

    A shallow embedding of [scripts/eval.py]:
    - [get_args], the command line of the script;
    - [verify_experiment_dir], which resolves the experiment-run directory;
    - [find_checkpoint_dir], which selects the checkpoint to restore;
    - [run_rollouts], the evaluation loop that logs one record per step;
    - [main], which builds the paths handed to them and sets up the
      trainer and the environment.

    Python values are modelled as follows.  A [str] is a [string] (names are
    taken to be ASCII), an [int] is a [Z], [None]-or-value is an [option], a
    raised exception is the [Raise] case of [result].  Library calls the
    script makes ([str], [int], [str.split], slicing, [os.path.join]) are
    modelled in module [Py].

    The script reads the file system through [glob.glob] only.  The
    resolution functions take [glob] as a parameter; what they do with the
    lists [glob] returns holds whatever the directory tree is and however
    patterns are matched.  Module [RefFS] is an executable model of [glob]
    on a directory tree.  What is said of a directory, of its entries and
    of what its subdirectories hold, is stated on such a tree: section
    [TreeFacts] spells out what the three patterns of the script match
    there, and the path the script is given is itself read as a pattern.

    The trainer and the environment are external: class [Collaborators]
    is their interface, and [run_rollouts] is modelled by the trace of
    calls and file operations it performs. *)

From Stdlib Require Import String Ascii List ZArith Lia Bool DecimalString
  DecimalPos Permutation.
Import ListNotations.

Local Open Scope string_scope.
Local Open Scope list_scope.
Local Open Scope Z_scope.

(** ** Python built-ins used by the script *)

Module Py.

(** Exceptions the script raises or lets escape. *)
Inductive exn : Type :=
| InvalidExperimentDirStructure (msg : string)
| FileNotFoundError (msg : string)
| ValueError (literal : string).

Inductive result (A : Type) : Type :=
| Ok (a : A)
| Raise (e : exn).
Arguments Ok {A} a.
Arguments Raise {A} e.

Definition bind {A B : Type} (r : result A) (k : A -> result B) : result B :=
  match r with
  | Ok a => k a
  | Raise e => Raise e
  end.

(** [str(n)] and ['{}'.format(n)] for an [int]. *)
Definition str (n : Z) : string := NilZero.string_of_int (Z.to_int n).

(** ['{}'.format(x)] for a value that is [None] or a [str]. *)
Definition format_opt (x : option string) : string :=
  match x with
  | None => "None"
  | Some s => s
  end.

(** [s.split(sep)] for a one-character separator. *)
Fixpoint split (sep : ascii) (s : string) : list string :=
  match s with
  | EmptyString => [EmptyString]
  | String c s' =>
      if Ascii.eqb c sep then EmptyString :: split sep s'
      else match split sep s' with
           | h :: t => String c h :: t
           | [] => [String c EmptyString]
           end
  end.

(** [s.split("_")[-1]]. *)
Definition last_field (s : string) : string :=
  last (split "_"%char s) EmptyString.

(** [s[:k]], with Python's treatment of a negative or too large bound. *)
Fixpoint take (n : nat) (s : string) : string :=
  match n, s with
  | S n', String c s' => String c (take n' s')
  | _, _ => EmptyString
  end.

Definition slice_to (s : string) (k : Z) : string :=
  let len := Z.of_nat (String.length s) in
  let k' := if k <? 0 then Z.max 0 (len + k) else Z.min k len in
  take (Z.to_nat k') s.

Definition ends_with_sep (s : string) : bool :=
  match rev (list_ascii_of_string s) with
  | c :: _ => Ascii.eqb c "/"%char
  | [] => false
  end.

Definition starts_with_sep (s : string) : bool :=
  match s with
  | String c _ => Ascii.eqb c "/"%char
  | EmptyString => false
  end.

(** [os.path.join(a, b)] on POSIX. *)
Definition path_join (a b : string) : string :=
  if starts_with_sep b then b
  else if (String.length a =? 0)%nat || ends_with_sep a then a ++ b
  else a ++ "/" ++ b.

(** [int(s)] for a [str]: surrounding white space is dropped, one sign is
    allowed, then decimal digits, single underscores allowed between two
    digits.  [None] stands for the [ValueError] Python raises. *)
Definition is_space (c : ascii) : bool :=
  let n := nat_of_ascii c in
  ((9 <=? n)%nat && (n <=? 13)%nat) || (n =? 32)%nat.

Definition digit_of (c : ascii) : option Z :=
  let n := nat_of_ascii c in
  if ((48 <=? n)%nat && (n <=? 57)%nat) then Some (Z.of_nat (n - 48)) else None.

Fixpoint lstrip (l : list ascii) : list ascii :=
  match l with
  | c :: l' => if is_space c then lstrip l' else l
  | [] => []
  end.

Definition strip (l : list ascii) : list ascii :=
  rev (lstrip (rev (lstrip l))).

(** Digits after the first one: [prev_us] tells that the previous
    character was an underscore, which must be followed by a digit. *)
Fixpoint digits_from (acc : Z) (prev_us : bool) (l : list ascii) : option Z :=
  match l with
  | [] => if prev_us then None else Some acc
  | c :: l' =>
      match digit_of c with
      | Some d => digits_from (10 * acc + d) false l'
      | None =>
          if Ascii.eqb c "_"%char && negb prev_us then digits_from acc true l'
          else None
      end
  end.

Definition magnitude (l : list ascii) : option Z :=
  match l with
  | c :: l' =>
      match digit_of c with
      | Some d => digits_from d false l'
      | None => None
      end
  | [] => None
  end.

Definition int (s : string) : option Z :=
  match strip (list_ascii_of_string s) with
  | c :: l' =>
      if Ascii.eqb c "-"%char then option_map Z.opp (magnitude l')
      else if Ascii.eqb c "+"%char then magnitude l'
      else magnitude (c :: l')
  | [] => None
  end.

End Py.

Import Py.

Notation "x <- r ;; k" := (bind r (fun x => k))
(at level 61, r at next level, right associativity).


(** ** Experiment locator and checkpoint selector *)

Section Resolution.

(** [glob.glob]: the paths matching a pattern, in the order the file
    system lists them. *)
Variable glob : string -> list string.

Definition params_file : string := "/params.pkl".

(** [verify_experiment_dir(expr_dir_path)]. *)
Definition verify_experiment_dir (expr_dir_path : string) : result string :=
  (* look for params in given path *)
  let given := glob (expr_dir_path ++ params_file) in
  (* look for params in child dirs *)
  let children := glob (expr_dir_path ++ "/*" ++ params_file) in
  if (length given =? 0)%nat then
    (* params file not in given dir *)
    if (length children =? 0)%nat then
      Raise (InvalidExperimentDirStructure "No params.pkl file found!")
    else if (1 <? length children)%nat then
      Raise (InvalidExperimentDirStructure "More than one params.pkl file found!")
    else
      (* params file found in child dir *)
      let child := nth 0 children EmptyString in
      let size := Z.of_nat (String.length child) in
      Ok (slice_to child (size - Z.of_nat (String.length params_file)))
  else Ok expr_dir_path.

(** The [for ckpt_dir_name in ckpt_dirs] loop of [find_checkpoint_dir],
    started with the current values of [ckpt_num] and [ckpt_num_str]. *)
Fixpoint latest_checkpoint (ckpt_dirs : list string) (ckpt_num : Z)
    (ckpt_num_str : option string) : result (Z * option string) :=
  match ckpt_dirs with
  | [] => Ok (ckpt_num, ckpt_num_str)
  | ckpt_dir_name :: rest =>
      let file_num := last_field ckpt_dir_name in
      match int file_num with
      | None => Raise (ValueError file_num)
      | Some v =>
          if ckpt_num <? v then latest_checkpoint rest v (Some file_num)
          else latest_checkpoint rest ckpt_num ckpt_num_str
      end
  end.

(** The suffix of a listed path parses as an integer. *)
Definition numeric (ckpt_dir_name : string) : Prop :=
  int (last_field ckpt_dir_name) <> None.

(** No suffix in the list parses to more than [bound]. *)
Definition bounded_by (bound : Z) (ckpt_dirs : list string) : Prop :=
  Forall (fun m => forall v, int (last_field m) = Some v -> v <= bound) ckpt_dirs.

(** [find_checkpoint_dir(expr_dir_path, ckpt_num)]. *)
Definition find_checkpoint_dir (expr_dir_path : string) (ckpt_num : option Z)
    : result (Z * option string) :=
  match ckpt_num with
  | Some n =>
      let ckpt_dirs := glob (expr_dir_path ++ "/checkpoint_*" ++ str n) in
      if (length ckpt_dirs =? 1)%nat then
        Ok (n, Some (last_field (nth 0 ckpt_dirs EmptyString)))
      else
        Raise (FileNotFoundError ("Checkpoint " ++ str n ++ " file not found"))
  | None =>
      latest_checkpoint (glob (expr_dir_path ++ "/checkpoint_*")) (-1) None
  end.

(** Command-line arguments of the script that take part in path
    resolution ([--seed] and [--explore] only reach the external trainer
    and environment). *)
Record args : Type := {
  arg_dir : string;
  arg_ckpt_num : option Z;
  arg_output_dir : option string;
  arg_num_rollouts : Z
}.

(** The checkpoint number and the paths [main] computes before it touches
    the trainer. *)
Record paths : Type := {
  expr_dir_path : string;
  resolved_ckpt_num : Z;
  eval_dir_path : string;
  ckpt_eval_dir_path : string;
  ray_config_path : string;
  ckpt_dir : string;
  ckpt_filename : string;
  ckpt_path : string;
  log_path : string
}.

(** The log path the specification gives when [--output_dir] is supplied:
    [{output_dir}/eval/ckpt_<n>/eval.log]. *)
Definition spec_output_log (output_dir : string) (n : Z) : string :=
  (output_dir ++ "/eval/ckpt_" ++ str n ++ "/eval.log")%string.

(** [main], from argument processing to the call of [run_rollouts]: the
    paths it builds; the last field is the log path handed to
    [run_rollouts].  The two [os.makedirs] calls create [eval_dir_path] and
    [ckpt_eval_dir_path]. *)
Definition main_paths (a : args) : result paths :=
  (* verify experiment run dir *)
  expr_dir <- verify_experiment_dir (arg_dir a) ;;
  (* get checkpoint num *)
  found <- find_checkpoint_dir expr_dir (arg_ckpt_num a) ;;
  let (ckpt_num, ckpt_num_str) := (found : Z * option string) in
  (* set paths *)
  let eval_dir := path_join expr_dir "eval" in
  let ckpt_eval_dir := path_join eval_dir ("ckpt_" ++ str ckpt_num) in
  let ray_config := path_join expr_dir "params.pkl" in
  let ckpt_d := ("checkpoint_" ++ format_opt ckpt_num_str)%string in
  let ckpt_f := ("checkpoint-" ++ str ckpt_num)%string in
  let ckpt_p := path_join (path_join expr_dir ckpt_d) ckpt_f in
  (* user specified output *)
  let (eval_dir', ckpt_eval_dir') :=
    match arg_output_dir a with
    | Some output_dir => (output_dir, path_join output_dir ("ckpt_" ++ str ckpt_num))
    | None => (eval_dir, ckpt_eval_dir)
    end in
  Ok {| expr_dir_path := expr_dir;
        resolved_ckpt_num := ckpt_num;
        eval_dir_path := eval_dir';
        ckpt_eval_dir_path := ckpt_eval_dir';
        ray_config_path := ray_config;
        ckpt_dir := ckpt_d;
        ckpt_filename := ckpt_f;
        ckpt_path := ckpt_p;
        log_path := (ckpt_eval_dir' ++ "/eval.log")%string |}.

End Resolution.

(** ** A directory-tree model of [glob.glob]

    The tree of directories the script looks at, and CPython's [glob]
    algorithm over it: the pattern is split at its last separator, a
    directory part with wildcards is expanded first, and the last component
    is matched against the directory listing, where a name that starts with
    a dot is only matched by a pattern that starts with a dot.  Listing
    order is the order of the entries of a [Dir].  Relative paths start at
    the root of the tree.  Names are matched as [fnmatch] does it: [*], [?]
    and sets of characters in brackets, where a range that holds no
    character is dropped (CPython 3.11).  There are no symbolic links. *)

Module RefFS.

#[local] Set Warnings "-register-all".

Inductive node : Type :=
| File
| Dir (entries : list (string * node)).

Fixpoint child (name : string) (entries : list (string * node)) : option node :=
  match entries with
  | [] => None
  | (n, x) :: rest => if String.eqb n name then Some x else child name rest
  end.

(** Path resolution, one component at a time; [above] holds the
    directories on the way back to the root, for [..]. *)
Fixpoint walk (above : list node) (cur : node) (comps : list string) : option node :=
  match comps with
  | [] => Some cur
  | c :: cs =>
      match cur with
      | File => None
      | Dir entries =>
          if String.eqb c "" || String.eqb c "." then walk above cur cs
          else if String.eqb c ".." then
            match above with
            | up :: above' => walk above' up cs
            | [] => walk [] cur cs
            end
          else
            match child c entries with
            | Some x => walk (cur :: above) x cs
            | None => None
            end
      end
  end.

Definition resolve (root : node) (path : string) : option node :=
  if String.eqb path "" then None else walk [] root (split "/"%char path).

(** [os.path.lexists] and [os.path.isdir]. *)
Definition lexists (root : node) (path : string) : bool :=
  match resolve root path with
  | Some _ => true
  | None => false
  end.

Definition isdir (root : node) (path : string) : bool :=
  match resolve root path with
  | Some (Dir _) => true
  | _ => false
  end.

Definition is_dir_node (x : node) : bool :=
  match x with
  | Dir _ => true
  | File => false
  end.

(** [glob._listdir]: the names in a directory, only the directories among
    them when [dironly]; nothing when the directory cannot be read. *)
Definition listdir (root : node) (dirname : string) (dironly : bool) : list string :=
  match resolve root (if String.eqb dirname "" then "." else dirname) with
  | Some (Dir entries) =>
      map fst (if dironly then filter (fun e => is_dir_node (snd e)) entries
               else entries)
  | _ => []
  end.

(** [fnmatch.translate]: a pattern is read as a list of pieces.  [*]
    matches any run of characters, [?] any one character, [[...]] one
    character of a set ([[!...]]: one character outside it), a bracket
    that is not closed stands for itself, any other character stands for
    itself. *)
Inductive piece : Type :=
| Star
| AnyChar
| Lit (c : ascii)
| NoChar
| CharSet (negated : bool) (chunks : list (list ascii)).

(** The text between the brackets, when the bracket at the head of the
    pattern is closed: a [!] right after the bracket and a [[]]] right after
    that belong to the text, which ends before the next [[]]]. *)
Fixpoint until_bracket (l : list ascii) : option (list ascii) :=
  match l with
  | [] => None
  | c :: l' =>
      if Ascii.eqb c "]"%char then Some []
      else option_map (cons c) (until_bracket l')
  end.

Definition bracket (rest : list ascii) : option (list ascii) :=
  let bang := match rest with
              | c :: _ => if Ascii.eqb c "!"%char then 1%nat else 0%nat
              | [] => 0%nat
              end in
  let brk := match skipn bang rest with
             | c :: _ => if Ascii.eqb c "]"%char then 1%nat else 0%nat
             | [] => 0%nat
             end in
  option_map (app (firstn (bang + brk) rest))
             (until_bracket (skipn (bang + brk) rest)).

(** The text of a set cut at the hyphens that make ranges: a hyphen is
    looked for from the second character on (the third after [!]), and
    after a hyphen from the third character after it.  [cur] is the chunk
    being read. *)
Fixpoint chunks_from (skip : nat) (cur stuff : list ascii) : list (list ascii) :=
  match stuff with
  | [] => [cur]
  | c :: stuff' =>
      match skip with
      | S skip' => chunks_from skip' (cur ++ [c])%list stuff'
      | O =>
          if Ascii.eqb c "-"%char then cur :: chunks_from 2 [] stuff'
          else chunks_from 0 (cur ++ [c])%list stuff'
      end
  end.

(** A hyphen at the end of the text makes no range: it goes to the chunk
    before it. *)
Fixpoint close_chunks (chunks : list (list ascii)) : list (list ascii) :=
  match chunks with
  | [] => []
  | c :: rest =>
      match rest with
      | [[]] => [(c ++ ["-"%char])%list]
      | _ => c :: close_chunks rest
      end
  end.

(** [ord(c)]. *)
Definition ord (c : ascii) : N := N_of_ascii c.

(** The range between two chunks runs from the last character of the
    first to the first character of the second. *)
Definition range_of (a b : list ascii) : option (ascii * ascii) :=
  match rev a, b with
  | lo :: _, hi :: _ => Some (lo, hi)
  | _, _ => None
  end.

(** Ranges that hold no character are removed, from the right: both ends
    go and the two chunks become one. *)
Fixpoint drop_empty_ranges (chunks : list (list ascii)) : list (list ascii) :=
  match chunks with
  | [] => []
  | a :: rest =>
      match drop_empty_ranges rest with
      | [] => [a]
      | b :: rest' =>
          match range_of a b with
          | Some (lo, hi) =>
              if (ord hi <? ord lo)%N
              then (removelast a ++ tl b)%list :: rest'
              else a :: b :: rest'
          | None => a :: b :: rest'
          end
      end
  end.

(** The piece a closed bracket stands for. *)
Definition set_piece (stuff : list ascii) : piece :=
  let skip := match stuff with
              | c :: _ => if Ascii.eqb c "!"%char then 2%nat else 1%nat
              | [] => 1%nat
              end in
  let chunks := drop_empty_ranges (close_chunks (chunks_from skip [] stuff)) in
  match chunks with
  | [[]] => NoChar
  | (c :: first) :: rest =>
      if Ascii.eqb c "!"%char then
        match first, rest with
        | [], [] => AnyChar
        | _, _ => CharSet true (first :: rest)
        end
      else CharSet false chunks
  | _ => CharSet false chunks
  end.

(** [skip] characters of the pattern were read with the set before them. *)
Fixpoint translate (skip : nat) (pat : list ascii) : list piece :=
  match pat with
  | [] => []
  | c :: pat' =>
      match skip with
      | S skip' => translate skip' pat'
      | O =>
          if Ascii.eqb c "*"%char then Star :: translate 0 pat'
          else if Ascii.eqb c "?"%char then AnyChar :: translate 0 pat'
          else if Ascii.eqb c "["%char then
            match bracket pat' with
            | Some stuff => set_piece stuff :: translate (S (length stuff)) pat'
            | None => Lit c :: translate 0 pat'
            end
          else Lit c :: translate 0 pat'
      end
  end.

(** A character is in a set when it is one of the characters of its
    chunks or lies in the range between two chunks. *)
Fixpoint in_ranges (chunks : list (list ascii)) (c : ascii) : bool :=
  match chunks with
  | [] => false
  | a :: rest =>
      match rest with
      | b :: _ =>
          match range_of a b with
          | Some (lo, hi) => (ord lo <=? ord c)%N && (ord c <=? ord hi)%N
          | None => false
          end
      | [] => false
      end
      || in_ranges rest c
  end.

Definition in_set (chunks : list (list ascii)) (c : ascii) : bool :=
  existsb (existsb (Ascii.eqb c)) chunks || in_ranges chunks c.

Definition accepts (p : piece) (c : ascii) : bool :=
  match p with
  | Star | AnyChar => true
  | Lit x => Ascii.eqb x c
  | NoChar => false
  | CharSet negated chunks => xorb negated (in_set chunks c)
  end.

(** The whole name against the pieces. *)
Fixpoint wild (pieces : list piece) : list ascii -> bool :=
  match pieces with
  | [] => fun name => match name with [] => true | _ :: _ => false end
  | Star :: pieces' =>
      fix star (name : list ascii) : bool :=
        wild pieces' name
        || match name with [] => false | _ :: name' => star name' end
  | p :: pieces' =>
      fun name =>
        match name with
        | [] => false
        | c :: name' => accepts p c && wild pieces' name'
        end
  end.

Definition fnmatch (name pat : string) : bool :=
  wild (translate 0 (list_ascii_of_string pat)) (list_ascii_of_string name).

Definition is_magic_char (c : ascii) : bool :=
  Ascii.eqb c "*"%char || Ascii.eqb c "?"%char || Ascii.eqb c "["%char.

Definition has_magic (s : string) : bool :=
  existsb is_magic_char (list_ascii_of_string s).

Definition ishidden (s : string) : bool :=
  match s with
  | String c _ => Ascii.eqb c "."%char
  | EmptyString => false
  end.

Definition is_sep (c : ascii) : bool := Ascii.eqb c "/"%char.

Fixpoint drop_seps (l : list ascii) : list ascii :=
  match l with
  | c :: l' => if is_sep c then drop_seps l' else l
  | [] => []
  end.

(** The reversed path cut at its first separator: the reversed tail,
    and the reversed head with that separator. *)
Fixpoint cut_tail (l : list ascii) : list ascii * list ascii :=
  match l with
  | [] => ([], [])
  | c :: l' =>
      if is_sep c then ([], l)
      else let (t, h) := cut_tail l' in (c :: t, h)
  end.

(** [os.path.split]: head and tail around the last separator; trailing
    separators are dropped from the head unless it consists of them. *)
Definition path_split (p : string) : string * string :=
  let (t, h) := cut_tail (rev (list_ascii_of_string p)) in
  let h' := if forallb is_sep h then h else drop_seps h in
  (string_of_list_ascii (rev h'), string_of_list_ascii (rev t)).

(** [glob._join]. *)
Definition glob_join (dirname basename : string) : string :=
  if String.eqb dirname "" then basename
  else if String.eqb basename "" then dirname
  else path_join dirname basename.

Definition glob1 (root : node) (dirname pattern : string) (dironly : bool)
    : list string :=
  let names := listdir root dirname dironly in
  let names := if ishidden pattern then names
               else filter (fun x => negb (ishidden x)) names in
  filter (fun x => fnmatch x pattern) names.

Definition glob0 (root : node) (dirname basename : string) (dironly : bool)
    : list string :=
  if String.eqb basename "" then
    if isdir root dirname then [basename] else []
  else
    if lexists root (glob_join dirname basename) then [basename] else [].

(** [glob._iglob]; the recursion is on the directory part of the pattern,
    which gets shorter, so a pattern of length [n] needs fuel [n + 1]. *)
Fixpoint iglob (fuel : nat) (root : node) (pathname : string) (dironly : bool)
    : list string :=
  match fuel with
  | O => []
  | S fuel' =>
      let (dirname, basename) := path_split pathname in
      if negb (has_magic pathname) then
        if negb (String.eqb basename "") then
          if lexists root pathname then [pathname] else []
        else
          if isdir root dirname then [pathname] else []
      else if String.eqb dirname "" then
        glob1 root "" basename dironly
      else
        let dirs :=
          if negb (String.eqb dirname pathname) && has_magic dirname
          then iglob fuel' root dirname true
          else [dirname] in
        let glob_in_dir := if has_magic basename then glob1 else glob0 in
        flat_map (fun d =>
                    map (path_join d) (glob_in_dir root d basename dironly))
                 dirs
  end.

Definition glob (root : node) (pathname : string) : list string :=
  iglob (S (String.length pathname)) root pathname false.

(** *** Reading the tree *)

(** A string without separator, and a usable entry name. *)
Definition no_sep (s : string) : bool :=
  forallb (fun c => negb (is_sep c)) (list_ascii_of_string s).

Definition plain_name (name : string) : bool :=
  negb (String.eqb name "") && no_sep name.

(** The subdirectories of [path] whose name does not start with a dot and
    in which [params.pkl] exists. *)
Definition artifact_children (root : node) (path : string) : list string :=
  filter (fun name => lexists root (glob_join (path_join path name) "params.pkl"))
         (filter (fun name => negb (ishidden name)) (listdir root path true)).

(** The subdirectories of [path], hidden ones included, in which
    [params.pkl] exists. *)
Definition holding_children (root : node) (path : string) : list string :=
  filter (fun name => lexists root (glob_join (path_join path name) "params.pkl"))
         (listdir root path true).

(** The entries of [dir] whose name matches [checkpoint_*sfx]. *)
Definition checkpoint_entries (root : node) (dir sfx : string) : list string :=
  filter (fun name => fnmatch name ("checkpoint_*" ++ sfx)) (listdir root dir false).

(** The subdirectories among them. *)
Definition checkpoint_subdirs (root : node) (dir sfx : string) : list string :=
  filter (fun name => fnmatch name ("checkpoint_*" ++ sfx)) (listdir root dir true).

End RefFS.


(** ** Rollout runner

    The trainer and the environment are external objects with a state of
    their own: each call takes the object's state and returns the new one
    with the call's result.  Rewards are numbers of some type with a zero
    and an addition.  What [run_rollouts] does to the outside world is
    recorded as a trace of events, in program order: the calls it makes on
    the environment and the trainer with what they returned, and what it
    does to the log file. *)

Class Collaborators : Type := {
  AgentState : Type;
  EnvState : Type;
  Obs : Type;
  Action : Type;
  Info : Type;
  Reward : Type;
  (** what [action] iterates over, what [float] returns, what
      [obs.tolist()] returns *)
  ActionItem : Type;
  Float : Type;
  ObsList : Type;
  (** [agent.compute_action(obs)], [env.reset()], [env.step(action)] *)
  compute_action : AgentState -> Obs -> AgentState * Action;
  env_reset : EnvState -> EnvState * Obs;
  env_step : EnvState -> Action -> EnvState * (Obs * Reward * bool * Info);
  (** [0] and [+] on rewards *)
  reward_zero : Reward;
  reward_add : Reward -> Reward -> Reward;
  (** [saferl.environment.utils.is_jsonable] and [jsonify] *)
  is_jsonable : Info -> bool;
  jsonify : Info -> Info;
  action_items : Action -> list ActionItem;
  float : ActionItem -> Float;
  tolist : Obs -> ObsList
}.

Section Runner.

Context {C : Collaborators}.

(** The [state] dictionary written for one step. *)
Record step_record : Type := {
  info : Info;
  actions : list Float;
  obs : ObsList;
  rollout_num : Z;
  step_number : Z;
  episode_reward : Reward
}.

(** [FileOpen path] is [jsonlines.open(path, "a")], [FileWrite] is
    [writer.write(state)], [FileClose] is the end of the [with] block. *)
Inductive event : Type :=
| EnvReset (o : Obs)
| ComputeAction (a : Action)
| EnvStep (o : Obs) (r : Reward) (done : bool) (i : Info)
| FileOpen (path : string)
| FileWrite (rec : step_record)
| FileClose.

(** How far a run got: the trainer and the environment after it, or
    [None] when it was still running when the fuel ran out. *)
Definition outcome : Type := option (AgentState * EnvState).

(** The [while not done] loop of rollout [i], entered with [done] false;
    [fuel] bounds the number of iterations.  The variable of the list
    comprehension over [action] is local to the comprehension, so the
    [rollout_num] written is the index [i] of the [for] loop. *)
Fixpoint episode_loop (fuel : nat) (i : Z) (agent : AgentState) (env : EnvState)
    (cur_obs : Obs) (step_num : Z) (ep_reward : Reward) : outcome * list event :=
  match fuel with
  | O => (None, [])
  | S fuel' =>
      (* progress environment state *)
      let (agent1, action) := compute_action agent cur_obs in
      let '(env1, (obs1, reward, done, info1)) := env_step env action in
      let step_num1 := step_num + 1 in
      let ep_reward1 := reward_add ep_reward reward in
      (* store log contents in state *)
      let state :=
        {| info := if is_jsonable info1 then info1 else jsonify info1;
           actions := map float (action_items action);
           obs := tolist obs1;
           rollout_num := i;
           step_number := step_num1;
           episode_reward := ep_reward1 |} in
      (* write state to file *)
      let here :=
        [ComputeAction action; EnvStep obs1 reward done info1; FileWrite state] in
      if done then (Some (agent1, env1), here)
      else
        let (r, tr) := episode_loop fuel' i agent1 env1 obs1 step_num1 ep_reward1 in
        (r, here ++ tr)
  end.

(** One iteration of the [for i in range(num_rollouts)] loop: the
    environment is reset, the log is opened for appending, the episode
    runs inside the [with] block, and leaving the block closes the log. *)
Definition rollout (fuel : nat) (log_dir : string) (i : Z)
    (agent : AgentState) (env : EnvState) : outcome * list event :=
  let (env0, obs0) := env_reset env in
  match episode_loop fuel i agent env0 obs0 0 reward_zero with
  | (Some st, tr) =>
      (Some st, EnvReset obs0 :: FileOpen log_dir :: tr ++ [FileClose])
  | (None, tr) => (None, EnvReset obs0 :: FileOpen log_dir :: tr)
  end.

Fixpoint rollouts (fuel : nat) (log_dir : string) (indices : list Z)
    (agent : AgentState) (env : EnvState) : outcome * list event :=
  match indices with
  | [] => (Some (agent, env), [])
  | i :: rest =>
      match rollout fuel log_dir i agent env with
      | (Some (agent1, env1), tr) =>
          let (r, tr') := rollouts fuel log_dir rest agent1 env1 in
          (r, tr ++ tr')
      | (None, tr) => (None, tr)
      end
  end.

(** [range(n)]. *)
Definition range (n : Z) : list Z := map Z.of_nat (seq 0 (Z.to_nat n)).

(** [run_rollouts(agent, env, log_dir, num_rollouts)]; every episode gets
    [fuel] steps. *)
Definition run_rollouts (fuel : nat) (agent : AgentState) (env : EnvState)
    (log_dir : string) (num_rollouts : Z) : outcome * list event :=
  rollouts fuel log_dir (range num_rollouts) agent env.

(** [main] once the trainer and the environment are restored: the paths are
    resolved, then the rollouts run on the log path. *)
Definition main (glob : string -> list string) (fuel : nat)
    (agent : AgentState) (env : EnvState) (a : args)
    : result (outcome * list event) :=
  p <- main_paths glob a ;;
  Ok (run_rollouts fuel agent env (log_path p) (arg_num_rollouts a)).

(** *** Reading a trace *)

(** The records written, in order. *)
Fixpoint written (tr : list event) : list step_record :=
  match tr with
  | [] => []
  | FileWrite rec :: tr' => rec :: written tr'
  | _ :: tr' => written tr'
  end.

(** What happens to the log file. *)
Definition is_file_event (e : event) : bool :=
  match e with
  | FileOpen _ | FileWrite _ | FileClose => true
  | _ => false
  end.

Definition file_events (tr : list event) : list event :=
  filter is_file_event tr.

(** The paths opened. *)
Fixpoint opened (tr : list event) : list string :=
  match tr with
  | [] => []
  | FileOpen path :: tr' => path :: opened tr'
  | _ :: tr' => opened tr'
  end.

(** The rewards [env.step] returned since the last [env.reset], oldest
    first; [acc] holds those seen before [tr]. *)
Fixpoint rewards_since_reset (acc : list Reward) (tr : list event) : list Reward :=
  match tr with
  | [] => acc
  | EnvReset _ :: tr' => rewards_since_reset [] tr'
  | EnvStep _ r _ _ :: tr' => rewards_since_reset (acc ++ [r]) tr'
  | _ :: tr' => rewards_since_reset acc tr'
  end.

(** The sum of a list of rewards, added left to right from [0]. *)
Definition reward_sum (rs : list Reward) : Reward :=
  fold_left reward_add rs reward_zero.

(** Every written record carries the sum of the rewards returned since
    the last reset and their number; [acc] holds the rewards returned
    before [tr] in the current episode. *)
Fixpoint running_sums (acc : list Reward) (tr : list event) : Prop :=
  match tr with
  | [] => True
  | EnvReset _ :: tr' => running_sums [] tr'
  | EnvStep _ r _ _ :: tr' => running_sums (acc ++ [r]) tr'
  | FileWrite rec :: tr' =>
      episode_reward rec = reward_sum acc /\
      step_number rec = Z.of_nat (length acc) /\
      running_sums acc tr'
  | _ :: tr' => running_sums acc tr'
  end.

(** The termination flag and the next state of [env.step(action)]. *)
Definition step_done (env : EnvState) (action : Action) : bool :=
  let '(_, (_, _, done, _)) := env_step env action in done.

Definition step_env (env : EnvState) (action : Action) : EnvState :=
  fst (env_step env action).

(** An environment whose every episode ends after exactly [k] steps:
    [steps_left] tells how many steps an environment state is from the end
    of its episode; a reset leaves [k] steps, each step takes one away,
    whatever the action, and sets the termination flag exactly when none
    is left. *)
Definition counts_down (k : nat) (steps_left : EnvState -> nat) : Prop :=
  (forall env, steps_left (fst (env_reset env)) = k) /\
  (forall env action m,
      steps_left env = S m ->
      step_done env action = (m =? 0)%nat /\
      steps_left (step_env env action) = m).

Definition episodes_last (k : nat) : Prop :=
  exists steps_left, counts_down k steps_left.

(** One open/append/close cycle per written record: the log file is
    opened, one record is appended, the file is closed, and so on. *)
Fixpoint cycle_per_step (log_dir : string) (fe : list event) : Prop :=
  match fe with
  | [] => True
  | FileOpen path :: FileWrite _ :: FileClose :: fe' =>
      path = log_dir /\ cycle_per_step log_dir fe'
  | _ => False
  end.

(** One cycle per rollout: the log file is opened, the records of the
    rollout are appended, the file is closed. *)
Definition rollout_cycle (log_dir : string) (recs : list step_record) : list event :=
  FileOpen log_dir :: map FileWrite recs ++ [FileClose].

(** Rollout number and step number of each record. *)
Definition numbering (recs : list step_record) : list (Z * Z) :=
  map (fun rec => (rollout_num rec, step_number rec)) recs.

(** [1 .. k]. *)
Definition steps (k : nat) : list Z := map Z.of_nat (seq 1 k).

End Runner.

(** ** Concrete directory trees and stub collaborators *)

Module Examples.

Import RefFS.

Definition params : string * node := ("params.pkl", File).

(** An experiment directory with the checkpoints of the example:
    [/exp/params.pkl], [/exp/checkpoint_5], [/exp/checkpoint_12],
    [/exp/checkpoint_7]. *)
Definition tree_three : node :=
  Dir [("exp", Dir [params;
                    ("checkpoint_5", Dir [("checkpoint-5", File)]);
                    ("checkpoint_12", Dir [("checkpoint-12", File)]);
                    ("checkpoint_7", Dir [("checkpoint-7", File)])])].

(** Only [checkpoint_21] is there. *)
Definition tree_21 : node :=
  Dir [("exp", Dir [params; ("checkpoint_21", Dir [("checkpoint-21", File)])])].

(** Both [checkpoint_1] and [checkpoint_21] are there. *)
Definition tree_1_21 : node :=
  Dir [("exp", Dir [params; ("checkpoint_1", Dir []); ("checkpoint_21", Dir [])])].


(** The only entry is [checkpoint_-5]. *)
Definition tree_negative : node :=
  Dir [("exp", Dir [params; ("checkpoint_-5", Dir [])])].


(** The artifact is in [/runs] itself and in two of its children. *)
Definition tree_both_levels : node :=
  Dir [("runs", Dir [params; ("a", Dir [params]); ("b", Dir [params])])].

(** A parent directory with one run, with no run, with two runs. *)
Definition tree_one_child : node :=
  Dir [("runs", Dir [("a", Dir [params; ("checkpoint_3", Dir [])]); ("notes", Dir [])])].

Definition tree_no_child : node :=
  Dir [("runs", Dir [("notes", Dir [])])].

Definition tree_two_children : node :=
  Dir [("runs", Dir [("a", Dir [params]); ("b", Dir [params])])].

(** An experiment directory whose name holds a bracket:
    [/exp[1]/params.pkl], [/exp[1]/checkpoint_7]. *)
Definition tree_bracket : node :=
  Dir [("exp[1]", Dir [params; ("checkpoint_7", Dir [("checkpoint-7", File)])])].

(** A parent directory whose name holds a bracket, with one run. *)
Definition tree_bracket_parent : node :=
  Dir [("runs[1]", Dir [("a", Dir [params])])].

(** [checkpoint_7] is a regular file. *)
Definition tree_file_7 : node :=
  Dir [("exp", Dir [params; ("checkpoint_7", File)])].

(** The only run is in the hidden directory [.a]; a hidden run beside
    the run [b]. *)
Definition tree_hidden_child : node :=
  Dir [("runs", Dir [(".a", Dir [params]); ("notes", Dir [])])].

Definition tree_hidden_and_visible : node :=
  Dir [("runs", Dir [(".a", Dir [params]); ("b", Dir [params])])].

(** A stub environment whose episodes last exactly [k] steps: its state is
    the number of steps left, [reset] sets it to [k], a step returns the
    number of steps left as observation and reward and is done when it was
    the last one.  The stub trainer answers every observation with the
    action made of that observation. *)
Definition stub (k : nat) : Collaborators := {|
  AgentState := unit;
  EnvState := nat;
  Obs := nat;
  Action := list nat;
  Info := unit;
  Reward := Z;
  ActionItem := nat;
  Float := Z;
  ObsList := list nat;
  compute_action := fun agent o => (agent, [o]);
  env_reset := fun _ => (k, k);
  env_step := fun left _ =>
    (Nat.pred left, (Nat.pred left, Z.of_nat left, (left <=? 1)%nat, tt));
  reward_zero := 0;
  reward_add := Z.add;
  is_jsonable := fun _ => true;
  jsonify := fun i => i;
  action_items := fun a => a;
  float := Z.of_nat;
  tolist := fun o => [o]
|}.

(** [--dir /exp --num_rollouts 2], without and with [--output_dir /out]. *)
Definition args_default : args :=
  {| arg_dir := "/exp"; arg_ckpt_num := None; arg_output_dir := None;
     arg_num_rollouts := 2 |}.

Definition args_output : args :=
  {| arg_dir := "/exp"; arg_ckpt_num := None; arg_output_dir := Some "/out";
     arg_num_rollouts := 2 |}.

(** One rollout against the stub with episodes of two steps. *)
Definition one_rollout : @outcome (stub 2) * list (@event (stub 2)) :=
  @run_rollouts (stub 2) 2 tt 0%nat "/exp/eval/ckpt_12/eval.log" 1.

(** Its two records, and the events around the second one. *)
Definition first_record : @step_record (stub 2) :=
  @Build_step_record (stub 2) tt [2] [1%nat] 0 1 2.

Definition second_record : @step_record (stub 2) :=
  @Build_step_record (stub 2) tt [1] [0%nat] 0 2 3.

Definition before_second : list (@event (stub 2)) :=
  [@EnvReset (stub 2) 2%nat;
   @FileOpen (stub 2) "/exp/eval/ckpt_12/eval.log";
   @ComputeAction (stub 2) [2%nat];
   @EnvStep (stub 2) 1%nat 2 false tt;
   @FileWrite (stub 2) first_record;
   @ComputeAction (stub 2) [1%nat];
   @EnvStep (stub 2) 0%nat 1 true tt].

(** The trace of [main] on [tree_three] with [--output_dir /out]. *)
Definition output_trace : list (@event (stub 2)) :=
  match @main (stub 2) (glob tree_three) 2 tt 0%nat args_output with
  | Ok (_, tr) => tr
  | Raise _ => []
  end.

End Examples.

(** ** Decimal strings

    What the proofs about [str] and [int] read off a decimal numeral. *)

(** The value of the digits of [d] read after a number [acc]. *)
Fixpoint uint_value (acc : Z) (d : Decimal.uint) : Z :=
  match d with
  | Decimal.Nil => acc
  | Decimal.D0 d' => uint_value (10 * acc + 0) d'
  | Decimal.D1 d' => uint_value (10 * acc + 1) d'
  | Decimal.D2 d' => uint_value (10 * acc + 2) d'
  | Decimal.D3 d' => uint_value (10 * acc + 3) d'
  | Decimal.D4 d' => uint_value (10 * acc + 4) d'
  | Decimal.D5 d' => uint_value (10 * acc + 5) d'
  | Decimal.D6 d' => uint_value (10 * acc + 6) d'
  | Decimal.D7 d' => uint_value (10 * acc + 7) d'
  | Decimal.D8 d' => uint_value (10 * acc + 8) d'
  | Decimal.D9 d' => uint_value (10 * acc + 9) d'
  end.

Definition is_digit (c : ascii) : bool :=
  match digit_of c with
  | Some _ => true
  | None => false
  end.

(** [c in s]. *)
Definition contains (c : ascii) (s : string) : bool :=
  existsb (Ascii.eqb c) (list_ascii_of_string s).

(** ** Shapes of a trace *)

Section TraceShapes.

Context {C : Collaborators}.

(** The record holds what the step produced: the action as floats, the
    observation as a list, the info as it is when JSON can hold it and
    through [jsonify] otherwise. *)
Definition carries (rec : step_record) (a : Action) (o : Obs) (i : Info) : Prop :=
  actions rec = map float (action_items a) /\
  obs rec = tolist o /\
  info rec = (if is_jsonable i then i else jsonify i).

(** A trace in which actions, steps and writes only come in threes: an
    action is computed, the environment steps, the record of that step is
    written. *)
Inductive stepwise : list event -> Prop :=
| stepwise_nil : stepwise []
| stepwise_step (a : Action) (o : Obs) (r : Reward) (done : bool) (i : Info)
    (rec : step_record) (tr : list event) :
    carries rec a o i ->
    stepwise tr ->
    stepwise (ComputeAction a :: EnvStep o r done i :: FileWrite rec :: tr)
| stepwise_reset (o : Obs) (tr : list event) :
    stepwise tr -> stepwise (EnvReset o :: tr)
| stepwise_open (path : string) (tr : list event) :
    stepwise tr -> stepwise (FileOpen path :: tr)
| stepwise_close (tr : list event) :
    stepwise tr -> stepwise (FileClose :: tr).

(** The number of [env.step] calls and of [env.reset] calls. *)
Fixpoint env_steps (tr : list event) : nat :=
  match tr with
  | [] => 0
  | EnvStep _ _ _ _ :: tr' => S (env_steps tr')
  | _ :: tr' => env_steps tr'
  end.

Fixpoint env_resets (tr : list event) : nat :=
  match tr with
  | [] => 0
  | EnvReset _ :: tr' => S (env_resets tr')
  | _ :: tr' => env_resets tr'
  end.

(** What is left on the file by a rollout that did not end: the log was
    opened and the records so far were written. *)
Definition open_cycle (log_dir : string) (recs : list step_record) : list event :=
  FileOpen log_dir :: map FileWrite recs.

(** The rollout and step numbers of the records of rollout [i] when it
    wrote [k] records: [(i, 1), ..., (i, k)]. *)
Definition numbered (ik : Z * nat) : list (Z * Z) :=
  map (fun j => (fst ik, j)) (steps (snd ik)).

End TraceShapes.

(** ** Command line

    [get_args] declares six options and lets [argparse] read the command
    line.  The input of the model is the command line as [argparse] reads
    it, item by item in order; the strings are ASCII.  What [get_args] adds
    is what each option does with its string: the type it is converted
    with, the default it has, whether it is required. *)

Inductive dest : Type :=
| Dir | CkptNum | Seed | Explore | OutputDir | NumRollouts.

(** An item is one of the six options with the string given to it
    ([--seed 3], [--seed=3], an unambiguous prefix such as [--se 3]); the
    help flag; an argument the parser does not know, which it sets aside
    (an option that is none of the declared ones, or a positional
    argument); or an option the parser rejects where it stands (one of the
    six without its string, the help flag with a string). *)
Inductive cli_item : Type :=
| Given (d : dest) (value : string)
| HelpFlag
| Unknown
| Malformed.

(** The [argparse.Namespace] returned. *)
Record namespace : Type := {
  ns_dir : string;
  ns_ckpt_num : option Z;
  ns_seed : option Z;
  ns_explore : bool;
  ns_output_dir : option string;
  ns_num_rollouts : Z
}.

(** The parser returns a namespace or leaves through [sys.exit]: [0] after
    printing the help, [2] after a usage error. *)
Inductive parsed : Type :=
| Parsed (ns : namespace)
| SystemExit (code : Z).

(** The [default=] of each option. *)
Definition defaults : namespace :=
  {| ns_dir := "";
     ns_ckpt_num := None;
     ns_seed := None;
     ns_explore := false;
     ns_output_dir := None;
     ns_num_rollouts := 10 |}.

(** [bool(s)] for a [str]: only the empty string is false. *)
Definition py_bool (s : string) : bool := negb (String.eqb s "").

(** Options declared with [type=int]. *)
Definition int_typed (d : dest) : bool :=
  match d with
  | CkptNum | Seed | NumRollouts => true
  | Dir | Explore | OutputDir => false
  end.

(** The store action of an option: its [type=] is applied to the string
    and the result is put in the namespace; [None] when the conversion
    raises [ValueError]. *)
Definition store (ns : namespace) (d : dest) (value : string) : option namespace :=
  match d with
  | Dir =>
      Some {| ns_dir := value; ns_ckpt_num := ns_ckpt_num ns;
              ns_seed := ns_seed ns; ns_explore := ns_explore ns;
              ns_output_dir := ns_output_dir ns;
              ns_num_rollouts := ns_num_rollouts ns |}
  | CkptNum =>
      option_map (fun n =>
        {| ns_dir := ns_dir ns; ns_ckpt_num := Some n;
           ns_seed := ns_seed ns; ns_explore := ns_explore ns;
           ns_output_dir := ns_output_dir ns;
           ns_num_rollouts := ns_num_rollouts ns |}) (int value)
  | Seed =>
      option_map (fun n =>
        {| ns_dir := ns_dir ns; ns_ckpt_num := ns_ckpt_num ns;
           ns_seed := Some n; ns_explore := ns_explore ns;
           ns_output_dir := ns_output_dir ns;
           ns_num_rollouts := ns_num_rollouts ns |}) (int value)
  | Explore =>
      Some {| ns_dir := ns_dir ns; ns_ckpt_num := ns_ckpt_num ns;
              ns_seed := ns_seed ns; ns_explore := py_bool value;
              ns_output_dir := ns_output_dir ns;
              ns_num_rollouts := ns_num_rollouts ns |}
  | OutputDir =>
      Some {| ns_dir := ns_dir ns; ns_ckpt_num := ns_ckpt_num ns;
              ns_seed := ns_seed ns; ns_explore := ns_explore ns;
              ns_output_dir := Some value;
              ns_num_rollouts := ns_num_rollouts ns |}
  | NumRollouts =>
      option_map (fun n =>
        {| ns_dir := ns_dir ns; ns_ckpt_num := ns_ckpt_num ns;
           ns_seed := ns_seed ns; ns_explore := ns_explore ns;
           ns_output_dir := ns_output_dir ns;
           ns_num_rollouts := n |}) (int value)
  end.

Definition is_dir (d : dest) : bool :=
  match d with
  | Dir => true
  | _ => false
  end.

(** [parser.parse_args()]: the items are taken in order; the help flag
    prints the help and exits, a string its type rejects and an option
    rejected where it stands are usage errors; at the end, the required
    [--dir] must have been seen, and nothing must have been set aside. *)
Fixpoint parse_args (items : list cli_item) (ns : namespace)
    (seen_dir unknown : bool) : parsed :=
  match items with
  | [] =>
      if seen_dir then
        if unknown then SystemExit 2 else Parsed ns
      else SystemExit 2
  | HelpFlag :: _ => SystemExit 0
  | Malformed :: _ => SystemExit 2
  | Unknown :: rest => parse_args rest ns seen_dir true
  | Given d value :: rest =>
      match store ns d value with
      | Some ns' => parse_args rest ns' (seen_dir || is_dir d) unknown
      | None => SystemExit 2
      end
  end.

(** [get_args()]. *)
Definition get_args (items : list cli_item) : parsed :=
  parse_args items defaults false false.

Definition dest_eqb (d d' : dest) : bool :=
  match d, d' with
  | Dir, Dir | CkptNum, CkptNum | Seed, Seed | Explore, Explore
  | OutputDir, OutputDir | NumRollouts, NumRollouts => true
  | _, _ => false
  end.

(** The string given to the last occurrence of an option. *)
Fixpoint last_value (d : dest) (items : list cli_item) : option string :=
  match items with
  | [] => None
  | Given d' value :: rest =>
      match last_value d rest with
      | Some later => Some later
      | None => if dest_eqb d d' then Some value else None
      end
  | _ :: rest => last_value d rest
  end.

(** The arguments of the namespace that path resolution reads. *)
Definition args_of (ns : namespace) : args :=
  {| arg_dir := ns_dir ns;
     arg_ckpt_num := ns_ckpt_num ns;
     arg_output_dir := ns_output_dir ns;
     arg_num_rollouts := ns_num_rollouts ns |}.

(** ** The script

    [main] from the command line to the rollouts.  The calls into the
    operating system, [pickle] and the training framework are taken to
    return; they are recorded, in program order, with the arguments the
    script gives them.  The stored configuration is a dictionary; of its
    values only the seed is looked at. *)

Inductive config_value : Type :=
| IntValue (n : Z)
| OtherValue.

Definition config : Type := list (string * config_value).

(** [ray_config[key]]. *)
Fixpoint lookup (cfg : config) (key : string) : option config_value :=
  match cfg with
  | [] => None
  | (k, v) :: rest => if String.eqb k key then Some v else lookup rest key
  end.

Inductive setup_event : Type :=
| MakeDirs (path : string)
| LoadConfig (path : string)
| RayInit
| BuildTrainer
| Restore (checkpoint : string)
| BuildEnv
| SeedEnv (seed : config_value)
| SetExplore (explore : bool).

(** How the script can stop before the rollouts. *)
Inductive stop : Type :=
| Exited (code : Z)
| Raised (e : exn)
| KeyError (key : string).

Section Script.

Context {C : Collaborators}.

Variable glob : string -> list string.

(** Lines 199 to 213 of [main]: what is done between the creation of the
    directories and the rollouts, and the failed lookup that stops it if
    there is one. *)
Definition load_and_configure (ns : namespace) (p : paths) (cfg : config)
    : list setup_event * option stop :=
  let loaded := [LoadConfig (ray_config_path p); RayInit] in
  match lookup cfg "env_config" with
  | None => (loaded, Some (KeyError "env_config"))
  | Some _ =>
      match lookup cfg "env" with
      | None => (loaded, Some (KeyError "env"))
      | Some _ =>
          let built := loaded ++ [BuildTrainer; Restore (ckpt_path p); BuildEnv] in
          let seed :=
            match ns_seed ns with
            | Some n => Some (IntValue n)
            | None => lookup cfg "seed"
            end in
          match seed with
          | None => (built, Some (KeyError "seed"))
          | Some v => (built ++ [SeedEnv v; SetExplore (ns_explore ns)], None)
          end
      end
  end.

(** [main()]: the setup events in order, then either the reason the
    script stopped or the run of the rollouts. *)
Definition script (items : list cli_item) (cfg : config) (fuel : nat)
    (agent : AgentState) (env : EnvState)
    : list setup_event * (stop + outcome * list event) :=
  match get_args items with
  | SystemExit code => ([], inl (Exited code))
  | Parsed ns =>
      match main_paths glob (args_of ns) with
      | Raise e => ([], inl (Raised e))
      | Ok p =>
          let dirs := [MakeDirs (eval_dir_path p); MakeDirs (ckpt_eval_dir_path p)] in
          match load_and_configure ns p cfg with
          | (setup, Some why) => (dirs ++ setup, inl why)
          | (setup, None) =>
              (dirs ++ setup,
               inr (run_rollouts fuel agent env (log_path p) (ns_num_rollouts ns)))
          end
      end
  end.

End Script.

(** ** More trees, command lines and configurations *)

Module MoreExamples.

Import Examples.

(** The checkpoints of [tree_three], listed in the opposite order. *)
Definition tree_three_reversed : RefFS.node :=
  RefFS.Dir [("exp", RefFS.Dir [("checkpoint_7", RefFS.Dir [("checkpoint-7", RefFS.File)]);
                    ("checkpoint_12", RefFS.Dir [("checkpoint-12", RefFS.File)]);
                    ("checkpoint_5", RefFS.Dir [("checkpoint-5", RefFS.File)]);
                    params])].

(** [checkpoint_07] and [checkpoint_7], in both orders. *)
Definition tree_padded : RefFS.node :=
  RefFS.Dir [("exp", RefFS.Dir [params; ("checkpoint_07", RefFS.Dir []);
                                ("checkpoint_7", RefFS.Dir [])])].

Definition tree_padded_reversed : RefFS.node :=
  RefFS.Dir [("exp", RefFS.Dir [params; ("checkpoint_7", RefFS.Dir []);
                                ("checkpoint_07", RefFS.Dir [])])].

(** A checkpoint directory with a second underscore in its name. *)
Definition tree_old_21 : RefFS.node :=
  RefFS.Dir [("exp", RefFS.Dir [params; ("checkpoint_old_21", RefFS.Dir [("checkpoint-21", RefFS.File)])])].

(** [--dir /exp --ckpt_num 21] and [--dir /runs]. *)
Definition args_request_21 : args :=
  {| arg_dir := "/exp"; arg_ckpt_num := Some 21; arg_output_dir := None;
     arg_num_rollouts := 2 |}.

Definition args_runs : args :=
  {| arg_dir := "/runs"; arg_ckpt_num := None; arg_output_dir := None;
     arg_num_rollouts := 2 |}.

(** [--dir /exp --num_rollouts 0]. *)
Definition args_no_rollouts : args :=
  {| arg_dir := "/exp"; arg_ckpt_num := None; arg_output_dir := None;
     arg_num_rollouts := 0 |}.

(** [--dir /exp --explore False --seed 0 --num_rollouts 1]. *)
Definition cli_explore : list cli_item :=
  [Given Dir "/exp"; Given Explore "False"; Given Seed "0";
   Given NumRollouts "1"].

(** [--dir /exp]. *)
Definition cli_plain : list cli_item := [Given Dir "/exp"].

(** A stored configuration with the seed 7, and one without seed. *)
Definition config_seeded : config :=
  [("env", OtherValue); ("env_config", OtherValue); ("seed", IntValue 7)].

Definition config_unseeded : config :=
  [("env", OtherValue); ("env_config", OtherValue)].

(** The script on [tree_three] with [cli_explore]. *)
Definition explore_run
    : list setup_event * (stop + @outcome (stub 2) * list (@event (stub 2))) :=
  @script (stub 2) (RefFS.glob tree_three) cli_explore config_seeded 2 tt 0%nat.

(** The rollout with index 1 that follows [one_rollout]. *)
Definition second_rollout : @outcome (stub 2) * list (@event (stub 2)) :=
  @rollouts (stub 2) 2 "/exp/eval/ckpt_12/eval.log" [1] tt 0%nat.

End MoreExamples.

(** ** Proof steps *)

(** One pass through the body of the [while] loop: names the results of
    [compute_action] and [env_step]. *)
Ltac loop_body ag1 action en1 o1 r d inf :=
  cbn [episode_loop];
  destruct (compute_action _ _) as [ag1 action];
  destruct (env_step _ action) as [en1 [[[o1 r] d] inf]] eqn:Estep.

(** * Properties *)

(** ** Strings *)

Section StringFacts.

Local Open Scope string_scope.

Lemma length_append (a b : string) :
  String.length (a ++ b) = (String.length a + String.length b)%nat.
Proof.
  induction a as [|c a IH]; simpl; [reflexivity|].
  now rewrite IH.
Qed.

Lemma take_append (a b : string) : take (String.length a) (a ++ b) = a.
Proof.
  induction a as [|c a IH]; simpl.
  - now destruct b.
  - now rewrite IH.
Qed.

(** Cutting the last [len(params_file)] characters off a match of a
    pattern that ends in [params_file]. *)
Lemma slice_off_suffix (a b : string) :
  slice_to (a ++ b)
    (Z.of_nat (String.length (a ++ b)) - Z.of_nat (String.length b)) = a.
Proof.
  unfold slice_to.
  rewrite length_append.
  replace (Z.of_nat (String.length a + String.length b) - Z.of_nat (String.length b))
    with (Z.of_nat (String.length a)) by lia.
  destruct (Z.ltb_spec (Z.of_nat (String.length a)) 0) as [Hneg|_]; [lia|].
  rewrite Z.min_l by lia.
  rewrite Nat2Z.id.
  apply take_append.
Qed.

Lemma split_nonempty (sep : ascii) (s : string) : split sep s <> [].
Proof.
  destruct s as [|c s]; simpl; [discriminate|].
  destruct (Ascii.eqb c sep); [discriminate|].
  destruct (split sep s); discriminate.
Qed.

Lemma split_append (sep : ascii) (a b : string) :
  split sep (a ++ String sep b) = (split sep a ++ split sep b)%list.
Proof.
  induction a as [|c a IH]; simpl.
  - now rewrite Ascii.eqb_refl.
  - destruct (Ascii.eqb c sep).
    + now rewrite IH.
    + rewrite IH.
      destruct (split sep a) as [|h t] eqn:E.
      * now destruct (split_nonempty sep a).
      * reflexivity.
Qed.

Lemma last_append {A : Type} (l1 l2 : list A) (d : A) :
  l2 <> [] -> last (l1 ++ l2) d = last l2 d.
Proof.
  intros Hne.
  induction l1 as [|x l1 IH]; [reflexivity|].
  simpl app. simpl last.
  destruct (l1 ++ l2)%list as [|y r] eqn:E.
  - apply app_eq_nil in E. now destruct E.
  - exact IH.
Qed.

(** The text after the last underscore only depends on what follows an
    underscore. *)
Lemma last_field_append (a b : string) :
  last_field (a ++ String "_" b) = last_field b.
Proof.
  unfold last_field.
  rewrite split_append.
  apply last_append, split_nonempty.
Qed.

Lemma append_assoc (a b c : string) : (a ++ b) ++ c = a ++ (b ++ c).
Proof.
  induction a as [|x a IH]; simpl; [reflexivity|].
  now rewrite IH.
Qed.

(** The suffix of a path in a directory named [checkpoint_...] is the
    suffix of the directory's name. *)
Lemma last_field_checkpoint (dir rest : string) :
  last_field (dir ++ "/checkpoint_" ++ rest) = last_field ("checkpoint_" ++ rest).
Proof.
  change ("checkpoint_" ++ rest) with ("checkpoint" ++ String "_" rest).
  change (dir ++ "/checkpoint_" ++ rest)
    with (dir ++ ("/checkpoint" ++ String "_" rest)).
  rewrite <- append_assoc.
  now rewrite !last_field_append.
Qed.

(** [os.path.join] of a directory that is not empty and does not end in a
    separator with a relative name. *)
Lemma path_join_plain (a b : string) :
  a <> "" -> ends_with_sep a = false -> starts_with_sep b = false ->
  path_join a b = a ++ "/" ++ b.
Proof.
  intros Hne Hend Hstart.
  unfold path_join. rewrite Hstart, Hend.
  destruct a; [contradiction|reflexivity].
Qed.

End StringFacts.

(** ** The directory-tree model of [glob] *)

Section TreeFacts.

Import RefFS.
Local Open Scope string_scope.

Lemma list_ascii_of_append (a b : string) :
  list_ascii_of_string (a ++ b) = (list_ascii_of_string a ++ list_ascii_of_string b)%list.
Proof.
  induction a as [|c a IH]; simpl; [reflexivity|]. now rewrite IH.
Qed.

Lemma has_magic_append (a b : string) :
  has_magic (a ++ b) = has_magic a || has_magic b.
Proof.
  unfold has_magic. now rewrite list_ascii_of_append, existsb_app.
Qed.

Lemma cut_tail_at_sep (t h : list ascii) :
  forallb (fun c => negb (is_sep c)) t = true ->
  cut_tail (t ++ "/"%char :: h) = (t, "/"%char :: h).
Proof.
  induction t as [|c t IH]; simpl; intros Ht; [reflexivity|].
  apply andb_prop in Ht. destruct Ht as [Hc Ht].
  apply negb_true_iff in Hc. rewrite Hc, (IH Ht). reflexivity.
Qed.

Lemma forallb_rev {A : Type} (f : A -> bool) (l : list A) :
  forallb f (rev l) = forallb f l.
Proof.
  induction l as [|x l IH]; [reflexivity|].
  simpl. rewrite forallb_app, IH. simpl. rewrite andb_true_r. apply andb_comm.
Qed.

(** Splitting [a/b] where [a] is a plain directory path and [b] has no
    separator. *)
Lemma path_split_plain (a b : string) :
  a <> "" -> ends_with_sep a = false -> no_sep b = true ->
  path_split (a ++ String "/" b) = (a, b).
Proof.
  intros Hne Hend Hb.
  unfold path_split.
  rewrite list_ascii_of_append. cbn [list_ascii_of_string].
  rewrite rev_app_distr. cbn [rev]. rewrite <- app_assoc. cbn [app].
  rewrite cut_tail_at_sep by (unfold no_sep in Hb; now rewrite forallb_rev).
  unfold ends_with_sep in Hend.
  destruct (rev (list_ascii_of_string a)) as [|c r] eqn:Erev.
  - destruct a; [contradiction|].
    apply (f_equal (@rev ascii)) in Erev. rewrite rev_involutive in Erev.
    discriminate Erev.
  - assert (Hc : is_sep c = false) by exact Hend.
    cbn [forallb drop_seps].
    change (is_sep "/"%char) with true. rewrite Hc. cbn [andb].
    rewrite <- Erev, !rev_involutive, !string_of_list_ascii_of_string.
    reflexivity.
Qed.


Lemma ends_with_sep_append (a : string) (c : ascii) (b : string) :
  ends_with_sep (a ++ String c b) = ends_with_sep (String c b).
Proof.
  unfold ends_with_sep.
  rewrite list_ascii_of_append, rev_app_distr.
  destruct (rev (list_ascii_of_string (String c b))) as [|x r] eqn:E; [|reflexivity].
  apply (f_equal (@rev ascii)) in E. rewrite rev_involutive in E. discriminate E.
Qed.

Lemma append_nonempty (a : string) (c : ascii) (b : string) : a ++ String c b <> "".
Proof. destruct a; discriminate. Qed.

Lemma eqb_append_longer (a : string) (c : ascii) (b : string) :
  String.eqb a (a ++ String c b) = false.
Proof.
  apply String.eqb_neq. intros H.
  apply (f_equal String.length) in H. rewrite length_append in H. simpl in H. lia.
Qed.

Lemma wild_star (name : list ascii) : wild [Star] name = true.
Proof.
  cbn [wild].
  induction name as [|c name IH]; [reflexivity|].
  cbn. exact IH.
Qed.

(** A literal character of a pattern is the next character of the name. *)
Lemma wild_literal (p : ascii) (pat name : list ascii) :
  is_magic_char p = false ->
  wild (translate 0 (p :: pat)) name = true ->
  exists rest, name = p :: rest /\ wild (translate 0 pat) rest = true.
Proof.
  intros Hp H.
  unfold is_magic_char in Hp.
  apply orb_false_elim in Hp. destruct Hp as [Hp Hbracket].
  apply orb_false_elim in Hp. destruct Hp as [Hstar Hq].
  cbn [translate] in H. rewrite Hstar, Hq, Hbracket in H.
  cbn [wild] in H.
  destruct name as [|c rest]; [discriminate|].
  apply andb_prop in H. destruct H as [Hc Hrest].
  apply Ascii.eqb_eq in Hc. subst c.
  now exists rest.
Qed.

(** A name matching [checkpoint_*...] starts with [checkpoint_]. *)
Lemma fnmatch_checkpoint (name sfx : string) :
  fnmatch name ("checkpoint_*" ++ sfx) = true ->
  exists rest, name = "checkpoint_" ++ rest.
Proof.
  unfold fnmatch. cbn [append list_ascii_of_string].
  intros H.
  repeat match type of H with
  | wild (translate 0 (?p :: _)) _ = true =>
      first [ apply wild_literal in H; [|reflexivity];
              let r := fresh "r" in let E := fresh "E" in
              destruct H as (r & E & H)
            | fail 1 ]
  end.
  subst.
  match goal with
  | E : list_ascii_of_string name = _ |- _ =>
      rewrite <- (string_of_list_ascii_of_string name), E
  end.
  eexists. cbn [string_of_list_ascii append]. reflexivity.
Qed.

Lemma fnmatch_checkpoint_visible (name sfx : string) :
  fnmatch name ("checkpoint_*" ++ sfx) = true -> ishidden name = false.
Proof.
  intros H. destruct (fnmatch_checkpoint name sfx H) as [rest ->]. reflexivity.
Qed.

Lemma filter_filter_implied {A : Type} (f g : A -> bool) (l : list A) :
  (forall x, f x = true -> g x = true) ->
  filter f (filter g l) = filter f l.
Proof.
  intros Himp.
  induction l as [|x l IH]; [reflexivity|].
  simpl. destruct (g x) eqn:Eg; simpl.
  - now rewrite IH.
  - destruct (f x) eqn:Ef; [|exact IH].
    rewrite (Himp x Ef) in Eg. discriminate.
Qed.

(** The matches of [dir/checkpoint_*sfx] are the entries of [dir] whose
    name matches, each joined to [dir]. *)
Lemma glob_checkpoints (root : node) (dir sfx : string) :
  has_magic dir = false -> dir <> "" -> ends_with_sep dir = false ->
  no_sep sfx = true ->
  glob root (dir ++ "/checkpoint_*" ++ sfx)
  = map (path_join dir) (checkpoint_entries root dir sfx).
Proof.
  intros Hplain Hne Hend Hsfx.
  assert (Hsplit : path_split (dir ++ "/checkpoint_*" ++ sfx)
                   = (dir, "checkpoint_*" ++ sfx)).
  { apply (path_split_plain dir ("checkpoint_*" ++ sfx) Hne Hend). exact Hsfx. }
  assert (Hmagic : has_magic (dir ++ "/checkpoint_*" ++ sfx) = true).
  { rewrite !has_magic_append. cbn. apply orb_true_r. }
  assert (Hdir : String.eqb dir "" = false) by now apply String.eqb_neq.
  unfold glob. cbn [iglob].
  rewrite Hsplit, Hmagic, Hdir, Hplain.
  cbn [negb]. rewrite andb_false_r.
  replace (has_magic ("checkpoint_*" ++ sfx)) with true
    by (symmetry; rewrite has_magic_append; reflexivity).
  cbn [flat_map]. rewrite app_nil_r.
  unfold glob1, checkpoint_entries. cbn [ishidden append].
  f_equal. apply filter_filter_implied.
  intros x Hx. now rewrite (fnmatch_checkpoint_visible x sfx Hx).
Qed.


Lemma filter_all {A : Type} (f : A -> bool) (l : list A) :
  (forall x, f x = true) -> filter f l = l.
Proof.
  intros Hall. induction l as [|x l IH]; [reflexivity|].
  simpl. now rewrite Hall, IH.
Qed.

Lemma flat_map_optional {A B : Type} (keep : A -> bool) (f : A -> B) (l : list A) :
  flat_map (fun x => if keep x then [f x] else []) l = map f (filter keep l).
Proof.
  induction l as [|x l IH]; [reflexivity|].
  simpl. destruct (keep x); simpl; now rewrite IH.
Qed.

(** The matches of [path/*/params.pkl] come from the subdirectories of
    [path] whose name does not start with a dot and in which [params.pkl]
    exists. *)
Lemma glob_children (root : node) (path : string) :
  has_magic path = false -> path <> "" -> ends_with_sep path = false ->
  glob root (path ++ "/*" ++ params_file)
  = map (fun name => path_join (path_join path name) "params.pkl")
        (artifact_children root path).
Proof.
  intros Hplain Hne Hend.
  assert (Hp : path ++ "/*" ++ params_file = (path ++ "/*") ++ String "/" "params.pkl").
  { now rewrite append_assoc. }
  assert (Hsplit : path_split (path ++ "/*" ++ params_file)
                   = (path ++ "/*", "params.pkl")).
  { rewrite Hp. apply path_split_plain.
    - apply append_nonempty.
    - now rewrite ends_with_sep_append.
    - reflexivity. }
  assert (Hmagic : has_magic (path ++ "/*" ++ params_file) = true).
  { rewrite has_magic_append. cbn. apply orb_true_r. }
  assert (Hmagic' : has_magic (path ++ "/*") = true).
  { rewrite has_magic_append. cbn. apply orb_true_r. }
  assert (Hdir : String.eqb (path ++ "/*") "" = false).
  { apply String.eqb_neq, append_nonempty. }
  assert (Hlonger : String.eqb (path ++ "/*") (path ++ "/*" ++ params_file) = false).
  { rewrite Hp. apply eqb_append_longer. }
  assert (Hfuel : String.length (path ++ "/*" ++ params_file)
                  = S (String.length (path ++ "/*" ++ "/params.pk"))).
  { rewrite !length_append. cbn. lia. }
  assert (Hinner : path_split (path ++ "/*") = (path, "*")).
  { now apply path_split_plain. }
  assert (Hpath : String.eqb path "" = false) by now apply String.eqb_neq.
  unfold glob. cbn [iglob].
  rewrite Hsplit, Hmagic, Hdir, Hlonger, Hmagic', Hfuel.
  cbn [negb andb iglob].
  rewrite Hinner, Hmagic', Hpath, Hplain.
  cbn [negb]. rewrite andb_false_r.
  change (has_magic "*") with true. change (has_magic "params.pkl") with false.
  cbv iota. cbn [flat_map]. rewrite app_nil_r.
  unfold glob1. change (ishidden "*") with false. cbv iota.
  rewrite (filter_all (fun x => fnmatch x "*"))
    by (intros x; exact (wild_star _)).
  rewrite flat_map_concat_map, map_map, <- flat_map_concat_map.
  unfold glob0. change (String.eqb "params.pkl" "") with false. cbv iota.
  unfold artifact_children.
  rewrite <- flat_map_optional.
  apply flat_map_ext. intros name.
  destruct (lexists root (glob_join (path_join path name) "params.pkl")); reflexivity.
Qed.

Lemma path_split_params (path : string) :
  snd (path_split (path ++ params_file)) = "params.pkl".
Proof.
  unfold path_split, params_file.
  rewrite list_ascii_of_append, rev_app_distr.
  simpl.
  destruct (forallb is_sep (rev (list_ascii_of_string path))); reflexivity.
Qed.

Lemma glob_params_direct (root : node) (path : string) :
  has_magic path = false ->
  glob root (path ++ params_file)
  = if lexists root (path ++ params_file) then [path ++ params_file] else [].
Proof.
  intros Hplain.
  unfold glob. cbn [iglob].
  pose proof (path_split_params path) as Hbase.
  destruct (path_split (path ++ params_file)) as [dirname basename].
  simpl in Hbase. subst basename.
  rewrite has_magic_append, Hplain.
  reflexivity.
Qed.

(** *** The resolution functions on a tree *)

Lemma no_sep_uint (d : Decimal.uint) : no_sep (NilEmpty.string_of_uint d) = true.
Proof. induction d; simpl; trivial. Qed.

(** The decimal form of an integer has no separator. *)
Lemma no_sep_str (n : Z) : no_sep (str n) = true.
Proof.
  unfold str, NilZero.string_of_int, NilZero.string_of_uint.
  destruct (Z.to_int n) as [d|d]; destruct d; try reflexivity;
    match goal with
    | |- no_sep (NilEmpty.string_of_uint ?u) = true => apply (no_sep_uint u)
    | |- no_sep (String _ (NilEmpty.string_of_uint ?u)) = true =>
        apply (no_sep_uint u)
    end.
Qed.

Lemma no_sep_ends (s : string) : no_sep s = true -> ends_with_sep s = false.
Proof.
  unfold no_sep, ends_with_sep. intros H.
  rewrite <- forallb_rev in H.
  destruct (rev (list_ascii_of_string s)) as [|c r]; [reflexivity|].
  simpl in H. apply andb_prop in H. destruct H as [Hc _].
  now apply negb_true_iff in Hc.
Qed.

Lemma no_sep_starts (s : string) : no_sep s = true -> starts_with_sep s = false.
Proof.
  unfold no_sep. destruct s as [|c s]; [reflexivity|].
  simpl. intros H. apply andb_prop in H. destruct H as [Hc _].
  now apply negb_true_iff in Hc.
Qed.

(** Joining a plain directory path and an entry name. *)
Lemma path_join_name (path name : string) :
  path <> "" -> ends_with_sep path = false -> plain_name name = true ->
  path_join path name = path ++ "/" ++ name /\
  ends_with_sep (path ++ "/" ++ name) = false.
Proof.
  intros Hne Hend Hname.
  unfold plain_name in Hname. apply andb_prop in Hname.
  destruct Hname as [Hnonempty Hsep].
  split.
  - apply path_join_plain; [assumption|assumption|now apply no_sep_starts].
  - destruct name as [|c name]; [discriminate|].
    rewrite <- append_assoc, ends_with_sep_append.
    now apply no_sep_ends.
Qed.

(** The loop only reads the suffixes. *)
Lemma latest_checkpoint_ext (l1 l2 : list string) :
  map last_field l1 = map last_field l2 ->
  forall cur cur_str,
    latest_checkpoint l1 cur cur_str = latest_checkpoint l2 cur cur_str.
Proof.
  revert l2.
  induction l1 as [|m1 l1 IH]; intros [|m2 l2] Hmap cur cur_str;
    try discriminate; [reflexivity|].
  injection Hmap as Hhead Htail.
  cbn [latest_checkpoint]. rewrite Hhead.
  destruct (int (last_field m2)) as [v|]; [|reflexivity].
  destruct (cur <? v)%Z; now apply IH.
Qed.

Lemma last_field_checkpoint_entry (dir name sfx : string) :
  dir <> "" -> ends_with_sep dir = false ->
  fnmatch name ("checkpoint_*" ++ sfx) = true ->
  last_field (path_join dir name) = last_field name.
Proof.
  intros Hne Hend Hmatch.
  destruct (fnmatch_checkpoint name sfx Hmatch) as [rest ->].
  rewrite path_join_plain by (assumption || reflexivity).
  apply (last_field_checkpoint dir rest).
Qed.

Lemma last_field_checkpoint_entries (root : node) (dir sfx : string) :
  dir <> "" -> ends_with_sep dir = false ->
  map last_field (map (path_join dir) (checkpoint_entries root dir sfx))
  = map last_field (checkpoint_entries root dir sfx).
Proof.
  intros Hne Hend.
  rewrite map_map. apply map_ext_in.
  intros name Hin. unfold checkpoint_entries in Hin.
  apply filter_In in Hin. destruct Hin as [_ Hmatch].
  now apply (last_field_checkpoint_entry dir name sfx).
Qed.

(** X16.  On a tree, for a plain path [path] (not empty, without wildcard and
    without trailing separator) whose subdirectories have usable names:
    [verify_experiment_dir] returns [path] when [path/params.pkl] exists;
    otherwise it looks at the subdirectories of [path] that hold
    [params.pkl] and whose name does not start with a dot, returns
    [path/name] when there is exactly one, [name], and raises
    [InvalidExperimentDirStructure] when there is none or several. *)
Theorem verify_experiment_dir_on_tree (root : node) (path : string) :
  has_magic path = false -> path <> "" -> ends_with_sep path = false ->
  Forall (fun name => plain_name name = true) (listdir root path true) ->
  verify_experiment_dir (glob root) path
  = if lexists root (path ++ params_file) then Ok path
    else match artifact_children root path with
         | [] => Raise (InvalidExperimentDirStructure "No params.pkl file found!")
         | [name] => Ok (path ++ "/" ++ name)
         | _ :: _ :: _ =>
             Raise (InvalidExperimentDirStructure "More than one params.pkl file found!")
         end.
Proof.
  intros Hplain Hne Hend Hnames.
  unfold verify_experiment_dir.
  rewrite glob_params_direct, glob_children by assumption.
  destruct (lexists root (path ++ params_file)); [reflexivity|].
  cbn [length Nat.eqb].
  destruct (artifact_children root path) as [|name [|name' rest]] eqn:Echildren;
    [reflexivity| |reflexivity].
  cbn [map length Nat.eqb Nat.ltb Nat.leb nth].
  assert (Hin : In name (listdir root path true)).
  { assert (Hc : In name (artifact_children root path)) by (rewrite Echildren; now left).
    unfold artifact_children in Hc.
    apply filter_In in Hc. destruct Hc as [Hc _].
    apply filter_In in Hc. now destruct Hc. }
  rewrite Forall_forall in Hnames.
  destruct (path_join_name path name Hne Hend (Hnames name Hin)) as [Hjoin Hend'].
  rewrite Hjoin.
  rewrite (path_join_plain (path ++ "/" ++ name) "params.pkl")
    by (try apply append_nonempty; assumption || reflexivity).
  change ((path ++ "/" ++ name) ++ "/" ++ "params.pkl")
    with ((path ++ "/" ++ name) ++ params_file).
  now rewrite slice_off_suffix.
Qed.

(** X17.  On a tree, for a plain directory path and a requested number [n]:
    [find_checkpoint_dir] returns normally exactly when one entry of the
    directory has a name matching [checkpoint_*n], and then returns [n] with
    the text after the last underscore of that name. *)
Theorem find_checkpoint_dir_requested_on_tree (root : node) (dir : string) (n : Z) :
  has_magic dir = false -> dir <> "" -> ends_with_sep dir = false ->
  find_checkpoint_dir (glob root) dir (Some n)
  = match checkpoint_entries root dir (str n) with
    | [name] => Ok (n, Some (last_field name))
    | _ => Raise (FileNotFoundError ("Checkpoint " ++ str n ++ " file not found"))
    end.
Proof.
  intros Hplain Hne Hend.
  unfold find_checkpoint_dir.
  rewrite glob_checkpoints by (assumption || apply no_sep_str).
  pose proof (last_field_checkpoint_entries root dir (str n) Hne Hend) as Hfields.
  destruct (checkpoint_entries root dir (str n)) as [|name [|name' rest]];
    [reflexivity| |reflexivity].
  cbn [map length Nat.eqb nth] in *.
  now injection Hfields as ->.
Qed.

(** On a tree, for a plain directory path and no requested number:
    [find_checkpoint_dir] runs its loop over the names of the entries of
    the directory that match [checkpoint_*], in listing order. *)
Theorem find_checkpoint_dir_latest_on_tree (root : node) (dir : string) :
  has_magic dir = false -> dir <> "" -> ends_with_sep dir = false ->
  find_checkpoint_dir (glob root) dir None
  = latest_checkpoint (checkpoint_entries root dir "") (-1) None.
Proof.
  intros Hplain Hne Hend.
  unfold find_checkpoint_dir.
  change (dir ++ "/checkpoint_*") with (dir ++ "/checkpoint_*" ++ "").
  rewrite glob_checkpoints by (assumption || reflexivity).
  apply latest_checkpoint_ext.
  now apply last_field_checkpoint_entries.
Qed.

End TreeFacts.

(** ** Experiment locator *)

Section LocatorFacts.

Variable glob : string -> list string.

Local Open Scope string_scope.

(** Whatever [glob] is: when the pattern [path/params.pkl] has a match,
    [verify_experiment_dir] returns [path] and does not look at what
    [path/*/params.pkl] matches. *)
Lemma verify_experiment_dir_direct (path : string) :
  glob (path ++ params_file) <> [] ->
  verify_experiment_dir glob path = Ok path.
Proof.
  intros Hgiven.
  unfold verify_experiment_dir.
  destruct (glob (path ++ params_file)) as [|g given]; [contradiction|].
  reflexivity.
Qed.

(** Whatever [glob] is: when the pattern [path/params.pkl] has no match,
    the result is decided by the number of matches of
    [path/*/params.pkl]; a single match is returned without its trailing
    [/params.pkl]. *)
Lemma verify_experiment_dir_children (path : string) :
  glob (path ++ params_file) = [] ->
  (forall child : string,
      glob (path ++ "/*" ++ params_file) = [child ++ params_file] ->
      verify_experiment_dir glob path = Ok child) /\
  (glob (path ++ "/*" ++ params_file) = [] ->
   verify_experiment_dir glob path
   = Raise (InvalidExperimentDirStructure "No params.pkl file found!")) /\
  ((2 <= length (glob (path ++ "/*" ++ params_file)))%nat ->
   verify_experiment_dir glob path
   = Raise (InvalidExperimentDirStructure "More than one params.pkl file found!")).
Proof.
  intros Hgiven.
  unfold verify_experiment_dir.
  rewrite Hgiven.
  cbn [length Nat.eqb].
  repeat split.
  - intros child Hone.
    rewrite Hone.
    cbn [length Nat.eqb Nat.ltb Nat.leb nth].
    now rewrite slice_off_suffix.
  - intros Hnone.
    now rewrite Hnone.
  - intros Hmany.
    destruct (glob (path ++ "/*" ++ params_file)) as [|c1 [|c2 rest]];
      simpl in Hmany; try lia.
    reflexivity.
Qed.

End LocatorFacts.

(** ** Checkpoint selector *)

Section SelectorFacts.

Variable glob : string -> list string.

Local Open Scope string_scope.

(** The loop over numeric suffixes ends normally, with a number that is at
    least the starting one and bounds every suffix; either nothing beat the
    starting number and the starting pair is returned, or the pair comes
    from the first listed path whose suffix parses to the largest number. *)
Lemma latest_checkpoint_numeric (ckpt_dirs : list string) :
  Forall numeric ckpt_dirs ->
  forall (cur : Z) (cur_str : option string),
  exists (best : Z) (s : option string),
    latest_checkpoint ckpt_dirs cur cur_str = Ok (best, s) /\
    cur <= best /\
    bounded_by best ckpt_dirs /\
    ((best = cur /\ s = cur_str) \/
     (cur < best /\
      exists before m after,
        ckpt_dirs = (before ++ m :: after)%list /\
        s = Some (last_field m) /\
        int (last_field m) = Some best /\
        bounded_by (best - 1) before)).
Proof.
  induction 1 as [|m0 rest Hm0 Hrest IH]; intros cur cur_str.
  - exists cur, cur_str. repeat split; [lia|constructor|now left].
  - cbn [latest_checkpoint].
    unfold numeric in Hm0.
    destruct (int (last_field m0)) as [v0|] eqn:Ev0; [|contradiction].
    destruct (Z.ltb_spec cur v0) as [Hlt|Hge].
    + destruct (IH v0 (Some (last_field m0)))
        as (best & s & Hrun & Hle & Hbound & Hcase).
      exists best, s. repeat split; [exact Hrun|lia| |].
      * constructor; [|exact Hbound].
        intros v Hv. rewrite Ev0 in Hv. injection Hv as <-. exact Hle.
      * right. split; [lia|].
        destruct Hcase as [[-> ->]|(Hlt' & before & m & after & -> & -> & Hm & Hbefore)].
        -- exists [], m0, rest. repeat split; [exact Ev0|constructor].
        -- exists (m0 :: before), m, after. repeat split; [exact Hm|].
           constructor; [|exact Hbefore].
           intros v Hv. rewrite Ev0 in Hv. injection Hv as <-. lia.
    + destruct (IH cur cur_str) as (best & s & Hrun & Hle & Hbound & Hcase).
      exists best, s. repeat split; [exact Hrun|exact Hle| |].
      * constructor; [|exact Hbound].
        intros v Hv. rewrite Ev0 in Hv. injection Hv as <-. lia.
      * destruct Hcase as [[-> ->]|(Hlt' & before & m & after & -> & -> & Hm & Hbefore)].
        -- now left.
        -- right. split; [exact Hlt'|].
           exists (m0 :: before), m, after. repeat split; [exact Hm|].
           constructor; [|exact Hbefore].
           intros v Hv. rewrite Ev0 in Hv. injection Hv as <-. lia.
Qed.

(** The loop stops at the first suffix [int] rejects. *)
Lemma latest_checkpoint_not_numeric (ckpt_dirs : list string) :
  Exists (fun m => int (last_field m) = None) ckpt_dirs ->
  forall (cur : Z) (cur_str : option string),
  exists literal,
    latest_checkpoint ckpt_dirs cur cur_str = Raise (ValueError literal) /\
    int literal = None /\
    exists m, In m ckpt_dirs /\ literal = last_field m.
Proof.
  induction ckpt_dirs as [|m0 rest IH]; intros Hex cur cur_str.
  - inversion Hex.
  - cbn [latest_checkpoint].
    destruct (int (last_field m0)) as [v0|] eqn:Ev0.
    + assert (Hrest : Exists (fun m => int (last_field m) = None) rest).
      { inversion Hex as [? ? Hhead|? ? Htail]; subst; [congruence|exact Htail]. }
      destruct (cur <? v0)%Z.
      * destruct (IH Hrest v0 (Some (last_field m0))) as (lit & Hrun & Hlit & m & Hin & Hm).
        exists lit. repeat split; [exact Hrun|exact Hlit|].
        exists m. split; [now right|exact Hm].
      * destruct (IH Hrest cur cur_str) as (lit & Hrun & Hlit & m & Hin & Hm).
        exists lit. repeat split; [exact Hrun|exact Hlit|].
        exists m. split; [now right|exact Hm].
    + exists (last_field m0). repeat split; [exact Ev0|].
      exists m0. split; [now left|reflexivity].
Qed.

(** Whatever [glob] is: with a requested number [n] the result is decided
    by the number of matches of [dir/checkpoint_*n]; a single match gives
    [n] with the text after its last underscore. *)
Lemma find_checkpoint_dir_requested (dir : string) (n : Z) :
  let ckpt_dirs := glob (dir ++ "/checkpoint_*" ++ str n) in
  ((exists r, find_checkpoint_dir glob dir (Some n) = Ok r)
   <-> length ckpt_dirs = 1%nat) /\
  (forall m : string,
      ckpt_dirs = [m] ->
      find_checkpoint_dir glob dir (Some n) = Ok (n, Some (last_field m))) /\
  (forall parent rest : string,
      ckpt_dirs = [parent ++ "/checkpoint_" ++ rest] ->
      find_checkpoint_dir glob dir (Some n)
      = Ok (n, Some (last_field ("checkpoint_" ++ rest)))) /\
  (length ckpt_dirs <> 1%nat ->
   find_checkpoint_dir glob dir (Some n)
   = Raise (FileNotFoundError ("Checkpoint " ++ str n ++ " file not found"))).
Proof.
  intros ckpt_dirs.
  unfold find_checkpoint_dir.
  fold ckpt_dirs.
  destruct (Nat.eqb_spec (length ckpt_dirs) 1) as [Hone|Hnot].
  - repeat split.
    + intros _. exact Hone.
    + intros _. eexists. reflexivity.
    + intros m ->. reflexivity.
    + intros parent rest ->. cbn [nth].
      now rewrite last_field_checkpoint.
    + intros Hne. contradiction.
  - repeat split.
    + intros [r Hr]. discriminate Hr.
    + intros Hone. contradiction.
    + intros m Hm. rewrite Hm in Hnot. now destruct Hnot.
    + intros parent rest Hm. rewrite Hm in Hnot. now destruct Hnot.
Qed.



End SelectorFacts.

(** ** The resolution functions and the directory *)

Section DirectoryFacts.

Import RefFS.
Local Open Scope string_scope.

Lemma filter_swap {A : Type} (f g : A -> bool) (l : list A) :
  filter f (filter g l) = filter g (filter f l).
Proof.
  induction l as [|x l IH]; [reflexivity|].
  cbn [filter].
  destruct (f x) eqn:Ef, (g x) eqn:Eg; cbn [filter];
    rewrite ?Ef, ?Eg, IH; reflexivity.
Qed.

(** The children the pattern [path/*/params.pkl] can find are the
    children holding [params.pkl] whose name does not start with a dot. *)
Lemma artifact_children_visible (root : node) (path : string) :
  artifact_children root path
  = filter (fun name => negb (ishidden name)) (holding_children root path).
Proof. unfold artifact_children, holding_children. apply filter_swap. Qed.

(** Where no regular file has a matching name, the matching entries are
    the matching subdirectories. *)
Lemma matching_subdirs (pat : string) (entries : list (string * node)) :
  Forall (fun e => fnmatch (fst e) pat = true -> is_dir_node (snd e) = true) entries ->
  filter (fun name => fnmatch name pat)
         (map fst (filter (fun e => is_dir_node (snd e)) entries))
  = filter (fun name => fnmatch name pat) (map fst entries).
Proof.
  induction 1 as [|[name x] entries Hdir _ IH]; [reflexivity|].
  cbn [filter map fst snd] in *.
  destruct (is_dir_node x) eqn:Ex; cbn [filter map fst].
  - now rewrite IH.
  - destruct (fnmatch name pat); [|exact IH].
    specialize (Hdir eq_refl). discriminate.
Qed.

(** C3, as amended.  On a tree, for a directory path without wildcard
    characters, not empty and without trailing separator, and a requested
    number [n]: [find_checkpoint_dir] returns normally exactly when one
    entry of the directory, subdirectory or regular file, has a name
    matching [checkpoint_*] followed by the digits of [n]; it then returns
    [n] with the text after the last underscore of that name; with no such
    entry or several it raises [FileNotFoundError].  Where no regular file
    of the directory has such a name, these entries are the matching
    subdirectories. *)
Theorem find_checkpoint_dir_requested_entries (root : node) (dir : string) (n : Z) :
  has_magic dir = false -> dir <> "" -> ends_with_sep dir = false ->
  ((exists r, find_checkpoint_dir (glob root) dir (Some n) = Ok r)
   <-> length (checkpoint_entries root dir (str n)) = 1%nat) /\
  (forall name : string,
      checkpoint_entries root dir (str n) = [name] ->
      find_checkpoint_dir (glob root) dir (Some n)
      = Ok (n, Some (last_field name))) /\
  (length (checkpoint_entries root dir (str n)) <> 1%nat ->
   find_checkpoint_dir (glob root) dir (Some n)
   = Raise (FileNotFoundError ("Checkpoint " ++ str n ++ " file not found"))) /\
  (forall entries : list (string * node),
      resolve root dir = Some (Dir entries) ->
      Forall (fun e => fnmatch (fst e) ("checkpoint_*" ++ str n) = true ->
                       is_dir_node (snd e) = true) entries ->
      checkpoint_subdirs root dir (str n) = checkpoint_entries root dir (str n)).
Proof.
  intros Hplain Hne Hend.
  destruct (find_checkpoint_dir_requested (glob root) dir n)
    as (Hiff & Hone & _ & Hother).
  pose proof (glob_checkpoints root dir (str n) Hplain Hne Hend (no_sep_str n))
    as Hglob.
  pose proof (last_field_checkpoint_entries root dir (str n) Hne Hend) as Hfields.
  rewrite Hglob in Hiff, Hone, Hother.
  rewrite length_map in Hiff, Hother.
  split; [exact Hiff|]. split; [|split; [exact Hother|]].
  - intros name Hname.
    rewrite Hname in Hone, Hfields. cbn [map] in Hone, Hfields.
    rewrite (Hone _ eq_refl). now injection Hfields as ->.
  - intros entries Hdir Hfiles.
    unfold checkpoint_subdirs, checkpoint_entries, listdir.
    assert (Hnonempty : String.eqb dir "" = false) by now apply String.eqb_neq.
    rewrite Hnonempty, Hdir.
    now apply matching_subdirs.
Qed.

(** C4, as amended.  On a tree, for a path without wildcard characters:
    when [params.pkl] exists directly under [path],
    [verify_experiment_dir] returns [path] unchanged.  Nothing is asked
    of the child directories: they may hold [params.pkl] too, one of them
    or several, and no exception is raised. *)
Theorem verify_experiment_dir_holds_params (root : node) (path : string) :
  has_magic path = false ->
  lexists root (path ++ params_file) = true ->
  verify_experiment_dir (glob root) path = Ok path.
Proof.
  intros Hplain Hgiven.
  apply verify_experiment_dir_direct.
  rewrite glob_params_direct by exact Hplain.
  rewrite Hgiven. discriminate.
Qed.

(** C5, as amended.  On a tree, for a path without wildcard characters,
    not empty and without trailing separator, under which [params.pkl]
    does not exist directly: the children that count are the
    subdirectories holding [params.pkl] whose name does not start with a
    dot.  With exactly one of them [verify_experiment_dir] returns its
    path; with none, and with two or more, it raises
    [InvalidExperimentDirStructure]. *)
Theorem verify_experiment_dir_visible_children (root : node) (path : string) :
  has_magic path = false -> path <> "" -> ends_with_sep path = false ->
  Forall (fun name => plain_name name = true) (listdir root path true) ->
  lexists root (path ++ params_file) = false ->
  artifact_children root path
  = filter (fun name => negb (ishidden name)) (holding_children root path) /\
  (forall name : string,
      artifact_children root path = [name] ->
      verify_experiment_dir (glob root) path = Ok (path ++ "/" ++ name)) /\
  (artifact_children root path = [] ->
   verify_experiment_dir (glob root) path
   = Raise (InvalidExperimentDirStructure "No params.pkl file found!")) /\
  ((2 <= length (artifact_children root path))%nat ->
   verify_experiment_dir (glob root) path
   = Raise (InvalidExperimentDirStructure "More than one params.pkl file found!")).
Proof.
  intros Hplain Hne Hend Hnames Hgiven.
  assert (Hnone : glob root (path ++ params_file) = []).
  { rewrite glob_params_direct by exact Hplain. now rewrite Hgiven. }
  destruct (verify_experiment_dir_children (glob root) path Hnone)
    as (Hone & Hzero & Hmany).
  rewrite glob_children in Hone, Hzero, Hmany by assumption.
  split; [apply artifact_children_visible|].
  split; [|split].
  - intros name Hname.
    apply Hone. rewrite Hname. cbn [map].
    assert (Hin : In name (listdir root path true)).
    { assert (Hc : In name (artifact_children root path))
        by (rewrite Hname; now left).
      unfold artifact_children in Hc.
      apply filter_In in Hc. destruct Hc as [Hc _].
      apply filter_In in Hc. now destruct Hc. }
    rewrite Forall_forall in Hnames.
    destruct (path_join_name path name Hne Hend (Hnames name Hin)) as [Hjoin Hend'].
    rewrite Hjoin.
    rewrite (path_join_plain (path ++ "/" ++ name) "params.pkl")
      by (try apply append_nonempty; assumption || reflexivity).
    reflexivity.
  - intros Hempty. apply Hzero. now rewrite Hempty.
  - intros Hseveral. apply Hmany. now rewrite length_map.
Qed.

End DirectoryFacts.

(** ** Rollout runner *)

Section RunnerFacts.

Context {C : Collaborators}.

Local Open Scope list_scope.

Lemma written_app (tr1 tr2 : list event) :
  written (tr1 ++ tr2) = written tr1 ++ written tr2.
Proof.
  induction tr1 as [|e tr1 IH]; [reflexivity|].
  destruct e; simpl; now rewrite IH.
Qed.

Lemma opened_app (tr1 tr2 : list event) :
  opened (tr1 ++ tr2) = opened tr1 ++ opened tr2.
Proof.
  induction tr1 as [|e tr1 IH]; [reflexivity|].
  destruct e; simpl; now rewrite IH.
Qed.

Lemma file_events_app (tr1 tr2 : list event) :
  file_events (tr1 ++ tr2) = file_events tr1 ++ file_events tr2.
Proof. apply filter_app. Qed.

Lemma running_sums_app (tr1 tr2 : list event) :
  forall acc,
    running_sums acc (tr1 ++ tr2)
    <-> running_sums acc tr1 /\ running_sums (rewards_since_reset acc tr1) tr2.
Proof.
  induction tr1 as [|e tr1 IH]; intros acc.
  - simpl. tauto.
  - destruct e; simpl; rewrite ?IH; tauto.
Qed.

Lemma reward_sum_snoc (acc : list Reward) (r : Reward) :
  reward_sum (acc ++ [r]) = reward_add (reward_sum acc) r.
Proof. unfold reward_sum. now rewrite fold_left_app. Qed.

(** A record found in a trace whose sums are right carries the sum and the
    number of the rewards returned before it since the last reset. *)
Lemma running_sums_at (acc : list Reward) (pre : list event)
    (rec : step_record) (post : list event) :
  running_sums acc (pre ++ FileWrite rec :: post) ->
  episode_reward rec = reward_sum (rewards_since_reset acc pre) /\
  step_number rec = Z.of_nat (length (rewards_since_reset acc pre)).
Proof.
  intros H.
  apply running_sums_app in H.
  destruct H as [_ H]. simpl in H. tauto.
Qed.

Lemma episode_loop_running_sums (fuel : nat) :
  forall i agent env cur_obs step_num ep_reward acc,
    ep_reward = reward_sum acc ->
    step_num = Z.of_nat (length acc) ->
    running_sums acc
      (snd (episode_loop fuel i agent env cur_obs step_num ep_reward)).
Proof.
  induction fuel as [|fuel IH]; intros i agent env cur_obs step_num ep_reward acc Hsum Hnum.
  - exact I.
  - loop_body ag1 action en1 o1 r d inf.
    assert (Hsum1 : reward_add ep_reward r = reward_sum (acc ++ [r])).
    { now rewrite reward_sum_snoc, Hsum. }
    assert (Hnum1 : step_num + 1 = Z.of_nat (length (acc ++ [r]))).
    { rewrite length_app. simpl. lia. }
    destruct d.
    + simpl. auto.
    + specialize (IH i ag1 en1 o1 (step_num + 1) (reward_add ep_reward r)
                     (acc ++ [r]) Hsum1 Hnum1).
      destruct (episode_loop fuel i ag1 en1 o1 (step_num + 1) (reward_add ep_reward r))
        as [res tr].
      simpl. auto.
Qed.

Lemma rollout_running_sums (fuel : nat) (log_dir : string) (i : Z)
    (agent : AgentState) (env : EnvState) (acc : list Reward) :
  running_sums acc (snd (rollout fuel log_dir i agent env)).
Proof.
  unfold rollout.
  destruct (env_reset env) as [env0 obs0].
  pose proof (episode_loop_running_sums fuel i agent env0 obs0 0 reward_zero []
                eq_refl eq_refl) as H.
  destruct (episode_loop fuel i agent env0 obs0 0 reward_zero) as [[st|] tr];
    simpl in *.
  - apply running_sums_app. split; [exact H|exact I].
  - exact H.
Qed.

Lemma rollouts_running_sums (fuel : nat) (log_dir : string) (indices : list Z) :
  forall agent env acc,
    running_sums acc (snd (rollouts fuel log_dir indices agent env)).
Proof.
  induction indices as [|i rest IH]; intros agent env acc.
  - exact I.
  - cbn [rollouts].
    pose proof (rollout_running_sums fuel log_dir i agent env acc) as H.
    destruct (rollout fuel log_dir i agent env) as [[[agent1 env1]|] tr].
    + specialize (IH agent1 env1 (rewards_since_reset acc tr)).
      destruct (rollouts fuel log_dir rest agent1 env1) as [res tr'].
      simpl in *. apply running_sums_app. split; assumption.
    + exact H.
Qed.

(** C8.  Wherever a record is written in a run of [run_rollouts], whether
    the run ended or not, its [episode_reward] is the sum, from [0], of the
    rewards [env.step] returned since the last [env.reset], the reward of
    the current step included, and its [step_number] is the number of
    these steps. *)
Theorem episode_reward_is_running_sum (fuel : nat) (agent : AgentState)
    (env : EnvState) (log_dir : string) (num_rollouts : Z)
    (pre : list event) (rec : step_record) (post : list event) :
  snd (run_rollouts fuel agent env log_dir num_rollouts)
  = pre ++ FileWrite rec :: post ->
  episode_reward rec = reward_sum (rewards_since_reset [] pre) /\
  step_number rec = Z.of_nat (length (rewards_since_reset [] pre)).
Proof.
  intros Htrace.
  apply running_sums_at with (post := post).
  rewrite <- Htrace.
  apply rollouts_running_sums.
Qed.

(** *** The log file *)

Lemma file_events_writes (recs : list step_record) :
  file_events (map FileWrite recs) = map FileWrite recs.
Proof.
  induction recs as [|rec recs IH]; [reflexivity|].
  simpl. now rewrite <- IH at 2.
Qed.

(** The loop only writes: what it does to the file is the list of its
    records, all of them of rollout [i]; it opens nothing; when it ends it
    has written at least one record. *)
Lemma episode_loop_file_events (fuel : nat) :
  forall i agent env cur_obs step_num ep_reward,
    let run := episode_loop fuel i agent env cur_obs step_num ep_reward in
    file_events (snd run) = map FileWrite (written (snd run)) /\
    Forall (fun rec => rollout_num rec = i) (written (snd run)) /\
    opened (snd run) = [] /\
    (fst run <> None -> written (snd run) <> []).
Proof.
  induction fuel as [|fuel IH]; intros i agent env cur_obs step_num ep_reward.
  - simpl. repeat split; [constructor|congruence].
  - loop_body ag1 action en1 o1 r d inf.
    destruct d.
    + simpl. repeat split; [repeat constructor|discriminate].
    + specialize (IH i ag1 en1 o1 (step_num + 1) (reward_add ep_reward r)).
      destruct (episode_loop fuel i ag1 en1 o1 (step_num + 1) (reward_add ep_reward r))
        as [res tr].
      simpl in *. destruct IH as (Hfile & Hnum & Hopen & _).
      repeat split.
      * now rewrite <- Hfile.
      * constructor; [reflexivity|exact Hnum].
      * exact Hopen.
      * discriminate.
Qed.

(** A rollout that ends is one cycle on the log file: open, the records
    of the rollout, close. *)
Lemma rollout_cycle_of (fuel : nat) (log_dir : string) (i : Z)
    (agent : AgentState) (env : EnvState) (st : AgentState * EnvState)
    (tr : list event) :
  rollout fuel log_dir i agent env = (Some st, tr) ->
  file_events tr = rollout_cycle log_dir (written tr) /\
  written tr <> [] /\
  Forall (fun rec => rollout_num rec = i) (written tr) /\
  opened tr = [log_dir].
Proof.
  unfold rollout.
  destruct (env_reset env) as [env0 obs0].
  pose proof (episode_loop_file_events fuel i agent env0 obs0 0 reward_zero) as H.
  destruct (episode_loop fuel i agent env0 obs0 0 reward_zero) as [[st'|] tr'];
    [|discriminate].
  simpl in H. destruct H as (Hfile & Hnum & Hopen & Hne).
  intros [= <- <-].
  cbn [written opened file_events filter is_file_event].
  rewrite written_app, opened_app. simpl. rewrite !app_nil_r.
  repeat split.
  - fold (file_events (tr' ++ [FileClose])).
    rewrite file_events_app, Hfile. reflexivity.
  - apply Hne. discriminate.
  - exact Hnum.
  - now rewrite Hopen.
Qed.

(** The records of each rollout of a list of rollouts that ended. *)
Lemma rollouts_cycles (fuel : nat) (log_dir : string) (indices : list Z) :
  forall agent env st tr,
    rollouts fuel log_dir indices agent env = (Some st, tr) ->
    exists episodes : list (list step_record),
      Forall2 (fun i recs => recs <> [] /\ Forall (fun rec => rollout_num rec = i) recs)
              indices episodes /\
      file_events tr = flat_map (rollout_cycle log_dir) episodes /\
      written tr = concat episodes /\
      opened tr = map (fun _ => log_dir) indices.
Proof.
  induction indices as [|i rest IH]; intros agent env st tr.
  - intros [= <- <-]. exists []. repeat split. constructor.
  - cbn [rollouts].
    destruct (rollout fuel log_dir i agent env) as [[[agent1 env1]|] tr1] eqn:E1;
      [|discriminate].
    destruct (rollouts fuel log_dir rest agent1 env1) as [res tr2] eqn:E2.
    intros [= -> <-].
    destruct (rollout_cycle_of _ _ _ _ _ _ _ E1) as (Hfile & Hne & Hnum & Hopen).
    destruct (IH _ _ _ _ E2) as (episodes & Hall & Hfiles & Hwritten & Hopened).
    exists (written tr1 :: episodes).
    rewrite file_events_app, written_app, opened_app.
    repeat split.
    + constructor; [split; assumption|exact Hall].
    + simpl. now rewrite Hfile, Hfiles.
    + simpl. now rewrite Hwritten.
    + simpl. now rewrite Hopen, Hopened.
Qed.

(** C1, as amended.  In a run of [run_rollouts] that ends, the log file is
    opened, appended to and closed once per rollout: what happens to the
    file is, rollout after rollout, one open, the writes of all the
    records of that rollout, at least one, and one close. *)
Theorem log_opened_once_per_rollout (fuel : nat) (agent : AgentState)
    (env : EnvState) (log_dir : string) (num_rollouts : Z)
    (st : AgentState * EnvState) (tr : list event) :
  run_rollouts fuel agent env log_dir num_rollouts = (Some st, tr) ->
  exists episodes : list (list step_record),
    Forall2 (fun i recs => recs <> [] /\ Forall (fun rec => rollout_num rec = i) recs)
            (range num_rollouts) episodes /\
    file_events tr = flat_map (rollout_cycle log_dir) episodes /\
    written tr = concat episodes.
Proof.
  intros Hrun.
  destruct (rollouts_cycles _ _ _ _ _ _ _ Hrun)
    as (episodes & Hall & Hfiles & Hwritten & _).
  exists episodes. repeat split; assumption.
Qed.

(** Every open of a run is an open of [log_dir]. *)
Lemma run_rollouts_opened (fuel : nat) (log_dir : string) (indices : list Z) :
  forall agent env,
    Forall (fun path => path = log_dir)
           (opened (snd (rollouts fuel log_dir indices agent env))).
Proof.
  induction indices as [|i rest IH]; intros agent env.
  - constructor.
  - cbn [rollouts].
    assert (H1 : Forall (fun path => path = log_dir)
                        (opened (snd (rollout fuel log_dir i agent env)))).
    { unfold rollout.
      destruct (env_reset env) as [env0 obs0].
      pose proof (episode_loop_file_events fuel i agent env0 obs0 0 reward_zero) as H.
      destruct (episode_loop fuel i agent env0 obs0 0 reward_zero) as [[st'|] tr'];
        simpl in *; destruct H as (_ & _ & Hopen & _).
      - rewrite opened_app, Hopen. repeat constructor.
      - rewrite Hopen. repeat constructor. }
    destruct (rollout fuel log_dir i agent env) as [[[agent1 env1]|] tr1].
    + specialize (IH agent1 env1).
      destruct (rollouts fuel log_dir rest agent1 env1) as [res tr2].
      simpl in *. rewrite opened_app. apply Forall_app. split; assumption.
    + exact H1.
Qed.

End RunnerFacts.

(** *** Episodes of a fixed length *)

Section FixedLength.

Context {C : Collaborators}.

Local Open Scope list_scope.

Lemma steps_succ (n : nat) : steps (S n) = 1 :: map (fun j => 1 + j) (steps n).
Proof.
  unfold steps. cbn [seq map].
  rewrite <- seq_shift, !map_map.
  f_equal. apply map_ext. intros j. lia.
Qed.

Lemma length_steps (n : nat) : length (steps n) = n.
Proof. unfold steps. now rewrite length_map, length_seq. Qed.

Lemma length_numbering (recs : list step_record) :
  length (numbering recs) = length recs.
Proof. apply length_map. Qed.

Lemma numbering_app (recs1 recs2 : list step_record) :
  numbering (recs1 ++ recs2) = numbering recs1 ++ numbering recs2.
Proof. apply map_app. Qed.

Section CountingDown.

Variable k : nat.
Variable steps_left : EnvState -> nat.
Hypothesis count : counts_down k steps_left.

(** From a state with [m + 1] steps left, the loop ends after writing
    [m + 1] records, numbered from [step_num + 1] on. *)
Lemma episode_loop_counts (m : nat) :
  forall fuel i agent env cur_obs step_num ep_reward,
    steps_left env = S m ->
    (S m <= fuel)%nat ->
    exists st tr,
      episode_loop fuel i agent env cur_obs step_num ep_reward = (Some st, tr) /\
      numbering (written tr) = map (fun j => (i, step_num + j)) (steps (S m)).
Proof.
  destruct count as [_ Hstep].
  induction m as [|m IH];
    intros fuel i agent env cur_obs step_num ep_reward Hleft Hfuel;
    (destruct fuel as [|fuel]; [lia|]);
    cbn [episode_loop];
    destruct (compute_action agent cur_obs) as [ag1 action];
    destruct (Hstep env action _ Hleft) as [Hdone Hnext];
    unfold step_done, step_env in Hdone, Hnext;
    destruct (env_step env action) as [en1 [[[o1 r] d] inf]];
    simpl in Hdone, Hnext; subst d.
  - simpl. eexists. eexists. split; reflexivity.
  - cbn [Nat.eqb].
    destruct (IH fuel i ag1 en1 o1 (step_num + 1) (reward_add ep_reward r) Hnext)
      as (st & tr & Hrun & Hnum); [lia|].
    rewrite Hrun.
    exists st. eexists. split; [reflexivity|].
    rewrite (steps_succ (S m)).
    cbn [app written numbering map rollout_num step_number].
    fold (numbering (written tr)).
    rewrite Hnum, map_map.
    f_equal. apply map_ext. intros j. f_equal. lia.
Qed.

Lemma rollout_counts (fuel : nat) (log_dir : string) (i : Z)
    (agent : AgentState) (env : EnvState) :
  (1 <= k)%nat ->
  (k <= fuel)%nat ->
  exists st tr,
    rollout fuel log_dir i agent env = (Some st, tr) /\
    numbering (written tr) = map (fun j => (i, j)) (steps k).
Proof.
  intros Hk Hfuel.
  unfold rollout.
  pose proof (proj1 count env) as Hreset.
  destruct (env_reset env) as [env0 obs0]. simpl in Hreset.
  assert (Hsucc : k = S (Nat.pred k)) by lia.
  rewrite Hsucc in Hreset, Hfuel.
  destruct (episode_loop_counts (Nat.pred k) fuel i agent env0 obs0 0 reward_zero
              Hreset Hfuel) as (st & tr & Hrun & Hnum).
  rewrite Hrun.
  exists st. eexists. split; [reflexivity|].
  cbn [written]. rewrite written_app. simpl. rewrite app_nil_r.
  rewrite Hnum, <- Hsucc. apply map_ext. intros j. reflexivity.
Qed.

Lemma rollouts_count (fuel : nat) (log_dir : string) (indices : list Z) :
  (1 <= k)%nat ->
  (k <= fuel)%nat ->
  forall agent env,
  exists st tr,
    rollouts fuel log_dir indices agent env = (Some st, tr) /\
    numbering (written tr)
    = flat_map (fun i => map (fun j => (i, j)) (steps k)) indices.
Proof.
  intros Hk Hfuel.
  induction indices as [|i rest IH]; intros agent env.
  - eexists. eexists. split; reflexivity.
  - cbn [rollouts].
    destruct (rollout_counts fuel log_dir i agent env Hk Hfuel)
      as ([agent1 env1] & tr1 & Hrun1 & Hnum1).
    rewrite Hrun1.
    destruct (IH agent1 env1) as (st & tr2 & Hrun2 & Hnum2).
    rewrite Hrun2.
    exists st. eexists. split; [reflexivity|].
    rewrite written_app, numbering_app, Hnum1, Hnum2.
    reflexivity.
Qed.

End CountingDown.

(** C7.  Against an environment whose every episode ends after exactly
    [k >= 1] steps, and for [num_rollouts >= 0], [run_rollouts] ends and has
    written [num_rollouts * k] records; in the order written, they are the
    records of rollout [0], then of rollout [1], up to rollout
    [num_rollouts - 1], and the step numbers of each rollout are
    [1, ..., k], starting again from [1] with each rollout. *)
Theorem run_rollouts_record_count (k fuel : nat) (agent : AgentState)
    (env : EnvState) (log_dir : string) (num_rollouts : Z) :
  episodes_last k ->
  (1 <= k)%nat ->
  0 <= num_rollouts ->
  (k <= fuel)%nat ->
  exists st tr,
    run_rollouts fuel agent env log_dir num_rollouts = (Some st, tr) /\
    Z.of_nat (length (written tr)) = num_rollouts * Z.of_nat k /\
    numbering (written tr)
    = flat_map (fun i => map (fun j => (i, j)) (steps k)) (range num_rollouts).
Proof.
  intros [steps_left Hcount] Hk Hn Hfuel.
  destruct (rollouts_count k steps_left Hcount fuel log_dir (range num_rollouts)
              Hk Hfuel agent env) as (st & tr & Hrun & Hnum).
  exists st, tr. repeat split; [exact Hrun| |exact Hnum].
  rewrite <- length_numbering, Hnum.
  rewrite (flat_map_constant_length (c := k)).
  - unfold range. rewrite length_map, length_seq. lia.
  - intros i _. now rewrite length_map, length_steps.
Qed.

End FixedLength.

(** ** Paths built by [main] *)

Section MainFacts.

Variable glob : string -> list string.

Local Open Scope string_scope.

(** What [main_paths] returns when both resolution steps succeed. *)
Lemma main_paths_resolved (a : args) (dir : string) (n : Z) (s : option string) :
  verify_experiment_dir glob (arg_dir a) = Ok dir ->
  find_checkpoint_dir glob dir (arg_ckpt_num a) = Ok (n, s) ->
  exists p,
    main_paths glob a = Ok p /\
    expr_dir_path p = dir /\
    resolved_ckpt_num p = n /\
    ray_config_path p = path_join dir "params.pkl" /\
    ckpt_dir p = "checkpoint_" ++ format_opt s /\
    ckpt_filename p = "checkpoint-" ++ str n /\
    ckpt_path p
    = path_join (path_join dir ("checkpoint_" ++ format_opt s)) ("checkpoint-" ++ str n) /\
    (arg_output_dir a = None ->
     eval_dir_path p = path_join dir "eval" /\
     ckpt_eval_dir_path p = path_join (path_join dir "eval") ("ckpt_" ++ str n)).
Proof.
  intros Hdir Hckpt.
  unfold main_paths. rewrite Hdir. cbn [bind]. rewrite Hckpt. cbn [bind].
  destruct (arg_output_dir a) as [out|]; eexists; (split; [reflexivity|]);
    cbn [expr_dir_path resolved_ckpt_num eval_dir_path ckpt_eval_dir_path
         ray_config_path ckpt_dir ckpt_filename ckpt_path];
    do 6 (split; [reflexivity|]); intros Hout; [discriminate|now split].
Qed.

(** A successful [main_paths] went through both resolution steps. *)
Lemma main_paths_inv (a : args) (p : paths) :
  main_paths glob a = Ok p ->
  verify_experiment_dir glob (arg_dir a) = Ok (expr_dir_path p) /\
  (exists s, find_checkpoint_dir glob (expr_dir_path p) (arg_ckpt_num a)
             = Ok (resolved_ckpt_num p, s)) /\
  log_path p = ckpt_eval_dir_path p ++ "/eval.log" /\
  forall output_dir,
    arg_output_dir a = Some output_dir ->
    eval_dir_path p = output_dir /\
    ckpt_eval_dir_path p = path_join output_dir ("ckpt_" ++ str (resolved_ckpt_num p)).
Proof.
  unfold main_paths.
  destruct (verify_experiment_dir glob (arg_dir a)) as [dir|e]; [|discriminate].
  cbn [bind].
  destruct (find_checkpoint_dir glob dir (arg_ckpt_num a)) as [[n s]|e] eqn:Hckpt;
    [|discriminate].
  cbn [bind].
  destruct (arg_output_dir a) as [out|]; intros [= <-];
    cbn [expr_dir_path resolved_ckpt_num eval_dir_path ckpt_eval_dir_path log_path];
    (split; [reflexivity|]); (split; [now exists s|]); (split; [reflexivity|]);
    intros output_dir Hout; [|discriminate].
  injection Hout as <-. now split.
Qed.


End MainFacts.

Section MainLog.

Context {C : Collaborators}.
Variable glob : string -> list string.

Local Open Scope string_scope.

(** C2, as amended.  When [--output_dir] is supplied, [main] takes it for
    the evaluation directory itself: the log is
    [os.path.join(output_dir, "ckpt_<n>") + "/eval.log"], that is
    [{output_dir}/ckpt_<n>/eval.log], with no [eval] component, where [n]
    is the number [find_checkpoint_dir] returned; every open of the log by
    the rollouts is an open of that path. *)
Theorem main_log_path_with_output_dir (fuel : nat) (agent : AgentState)
    (env : EnvState) (a : args) (output_dir : string)
    (res : outcome) (tr : list event) :
  arg_output_dir a = Some output_dir ->
  main glob fuel agent env a = Ok (res, tr) ->
  exists (dir : string) (n : Z) (s : option string),
    verify_experiment_dir glob (arg_dir a) = Ok dir /\
    find_checkpoint_dir glob dir (arg_ckpt_num a) = Ok (n, s) /\
    Forall (fun path => path = path_join output_dir ("ckpt_" ++ str n) ++ "/eval.log")
           (opened tr) /\
    (output_dir <> "" -> ends_with_sep output_dir = false ->
     path_join output_dir ("ckpt_" ++ str n) ++ "/eval.log"
     = output_dir ++ "/ckpt_" ++ str n ++ "/eval.log").
Proof.
  intros Hout Hmain.
  unfold main in Hmain.
  destruct (main_paths glob a) as [p|e] eqn:Hp; [|discriminate].
  cbn [bind] in Hmain. injection Hmain as Hrun.
  destruct (main_paths_inv glob a p Hp) as (Hdir & [s Hckpt] & Hlog & Hdirs).
  destruct (Hdirs output_dir Hout) as [_ Heval].
  exists (expr_dir_path p), (resolved_ckpt_num p), s.
  repeat split; [exact Hdir|exact Hckpt| |].
  - rewrite <- Heval, <- Hlog.
    replace tr with (snd (run_rollouts fuel agent env (log_path p) (arg_num_rollouts a)))
      by now rewrite Hrun.
    apply run_rollouts_opened.
  - intros Hne Hend.
    rewrite path_join_plain by (assumption || reflexivity).
    now rewrite !append_assoc.
Qed.

End MainLog.

(** ** The properties on concrete trees and runs *)

Section Concrete.

Import Examples.

Local Open Scope string_scope.

(** The selector on [checkpoint_5], [checkpoint_12], [checkpoint_7]. *)
Example select_latest_of_three :
  find_checkpoint_dir (RefFS.glob tree_three) "/exp" None = Ok (12, Some "12").
Proof. reflexivity. Qed.

Example select_requested_7 :
  find_checkpoint_dir (RefFS.glob tree_three) "/exp" (Some 7) = Ok (7, Some "7").
Proof. reflexivity. Qed.

Example select_requested_99 :
  find_checkpoint_dir (RefFS.glob tree_three) "/exp" (Some 99)
  = Raise (FileNotFoundError "Checkpoint 99 file not found").
Proof. reflexivity. Qed.

(** Requesting [1] where [checkpoint_1] and [checkpoint_21] both exist:
    both match [checkpoint_*1]. *)
Example select_requested_1_of_1_and_21 :
  find_checkpoint_dir (RefFS.glob tree_1_21) "/exp" (Some 1)
  = Raise (FileNotFoundError "Checkpoint 1 file not found").
Proof. reflexivity. Qed.

(** C1: a rollout of two steps opens the log once, appends both records
    and closes it once; it is not one open/append/close cycle per record. *)
Lemma log_cycle_per_step_counterexample :
  fst one_rollout = Some (tt, 0%nat) /\
  file_events (snd one_rollout)
  = [FileOpen "/exp/eval/ckpt_12/eval.log"; FileWrite first_record;
     FileWrite second_record; FileClose] /\
  ~ cycle_per_step "/exp/eval/ckpt_12/eval.log" (file_events (snd one_rollout)).
Proof.
  split; [reflexivity|]. split; [reflexivity|].
  intros H. exact H.
Qed.

Lemma log_opened_once_per_rollout_witness :
  one_rollout = (Some (tt, 0%nat), snd one_rollout) /\
  exists episodes : list (list (@step_record (stub 2))),
    Forall2 (fun i recs => recs <> [] /\ Forall (fun rec => rollout_num rec = i) recs)
            (range 1) episodes /\
    file_events (snd one_rollout)
    = flat_map (rollout_cycle "/exp/eval/ckpt_12/eval.log") episodes /\
    written (snd one_rollout) = concat episodes.
Proof.
  split; [reflexivity|].
  apply (@log_opened_once_per_rollout (stub 2) 2 tt 0%nat
           "/exp/eval/ckpt_12/eval.log" 1 (tt, 0%nat) (snd one_rollout)).
  reflexivity.
Defined.

(** C2: with [--output_dir /out] the log of checkpoint 12 is
    [/out/ckpt_12/eval.log], not [/out/eval/ckpt_12/eval.log]. *)
Lemma output_dir_log_counterexample :
  @main (stub 2) (RefFS.glob tree_three) 2 tt 0%nat args_output
  = Ok (Some (tt, 0%nat), output_trace) /\
  find_checkpoint_dir (RefFS.glob tree_three) "/exp" None = Ok (12, Some "12") /\
  opened output_trace = ["/out/ckpt_12/eval.log"; "/out/ckpt_12/eval.log"] /\
  ~ In (spec_output_log "/out" 12) (opened output_trace).
Proof.
  split; [reflexivity|]. split; [reflexivity|]. split; [reflexivity|].
  intros [H|[H|[]]]; discriminate H.
Qed.

Lemma main_log_path_with_output_dir_witness :
  arg_output_dir args_output = Some "/out" /\
  exists (dir : string) (n : Z) (s : option string),
    verify_experiment_dir (RefFS.glob tree_three) "/exp" = Ok dir /\
    find_checkpoint_dir (RefFS.glob tree_three) dir None = Ok (n, s) /\
    Forall (fun path => path = path_join "/out" ("ckpt_" ++ str n) ++ "/eval.log")
           (opened output_trace) /\
    ("/out" <> "" -> ends_with_sep "/out" = false ->
     path_join "/out" ("ckpt_" ++ str n) ++ "/eval.log"
     = "/out" ++ "/ckpt_" ++ str n ++ "/eval.log").
Proof.
  split; [reflexivity|].
  apply (@main_log_path_with_output_dir (stub 2) (RefFS.glob tree_three) 2 tt 0%nat
           args_output "/out" (Some (tt, 0%nat)) output_trace).
  - reflexivity.
  - reflexivity.
Defined.

(** C3: a regular file named [checkpoint_7] is selected although no
    subdirectory matches; under [/exp[1]] the one matching subdirectory is
    not found, because the path is read as a pattern. *)
Lemma find_checkpoint_dir_requested_counterexample :
  RefFS.checkpoint_subdirs tree_file_7 "/exp" (str 7) = [] /\
  find_checkpoint_dir (RefFS.glob tree_file_7) "/exp" (Some 7) = Ok (7, Some "7") /\
  RefFS.checkpoint_subdirs tree_bracket "/exp[1]" (str 7) = ["checkpoint_7"] /\
  find_checkpoint_dir (RefFS.glob tree_bracket) "/exp[1]" (Some 7)
  = Raise (FileNotFoundError "Checkpoint 7 file not found").
Proof. repeat split. Qed.

(** C3: requesting [7] among [checkpoint_5], [checkpoint_12] and
    [checkpoint_7]; requesting [1] when only [checkpoint_21] exists. *)
Lemma find_checkpoint_dir_requested_entries_witness :
  RefFS.checkpoint_entries tree_three "/exp" (str 7) = ["checkpoint_7"] /\
  find_checkpoint_dir (RefFS.glob tree_three) "/exp" (Some 7) = Ok (7, Some "7") /\
  RefFS.checkpoint_entries tree_21 "/exp" (str 1) = ["checkpoint_21"] /\
  find_checkpoint_dir (RefFS.glob tree_21) "/exp" (Some 1) = Ok (1, Some "21").
Proof.
  assert (Hexp : "/exp" <> "") by discriminate.
  split; [reflexivity|]. split; [|split; [reflexivity|]].
  - exact (proj1 (proj2 (find_checkpoint_dir_requested_entries
                           tree_three "/exp" 7 eq_refl Hexp eq_refl))
             "checkpoint_7" eq_refl).
  - exact (proj1 (proj2 (find_checkpoint_dir_requested_entries
                           tree_21 "/exp" 1 eq_refl Hexp eq_refl))
             "checkpoint_21" eq_refl).
Defined.

(** C4: [/exp[1]] holds [params.pkl], and the function raises: as a
    pattern, [/exp[1]] matches [/exp1] only. *)
Lemma verify_experiment_dir_direct_counterexample :
  RefFS.lexists tree_bracket "/exp[1]/params.pkl" = true /\
  verify_experiment_dir (RefFS.glob tree_bracket) "/exp[1]"
  = Raise (InvalidExperimentDirStructure "No params.pkl file found!").
Proof. split; reflexivity. Qed.

(** C4: the artifact is in [/runs] and in two of its children. *)
Lemma verify_experiment_dir_holds_params_witness :
  RefFS.holding_children tree_both_levels "/runs" = ["a"; "b"] /\
  verify_experiment_dir (RefFS.glob tree_both_levels) "/runs" = Ok "/runs".
Proof.
  split; [reflexivity|].
  exact (verify_experiment_dir_holds_params tree_both_levels "/runs" eq_refl eq_refl).
Defined.

(** C5: the only child holding the artifact is hidden, and the function
    raises; of two children holding it one is hidden, and the function
    returns the other; the one child of [/runs[1]] is not found. *)
Lemma verify_experiment_dir_children_counterexample :
  RefFS.lexists tree_hidden_child "/runs/params.pkl" = false /\
  RefFS.holding_children tree_hidden_child "/runs" = [".a"] /\
  verify_experiment_dir (RefFS.glob tree_hidden_child) "/runs"
  = Raise (InvalidExperimentDirStructure "No params.pkl file found!") /\
  RefFS.lexists tree_hidden_and_visible "/runs/params.pkl" = false /\
  RefFS.holding_children tree_hidden_and_visible "/runs" = [".a"; "b"] /\
  verify_experiment_dir (RefFS.glob tree_hidden_and_visible) "/runs" = Ok "/runs/b" /\
  RefFS.lexists tree_bracket_parent "/runs[1]/params.pkl" = false /\
  RefFS.holding_children tree_bracket_parent "/runs[1]" = ["a"] /\
  verify_experiment_dir (RefFS.glob tree_bracket_parent) "/runs[1]"
  = Raise (InvalidExperimentDirStructure "No params.pkl file found!").
Proof. repeat split. Qed.

(** C5: one child, no child, two children with the artifact; a hidden
    child does not count. *)
Lemma verify_experiment_dir_visible_children_witness :
  verify_experiment_dir (RefFS.glob tree_one_child) "/runs" = Ok "/runs/a" /\
  verify_experiment_dir (RefFS.glob tree_no_child) "/runs"
  = Raise (InvalidExperimentDirStructure "No params.pkl file found!") /\
  verify_experiment_dir (RefFS.glob tree_two_children) "/runs"
  = Raise (InvalidExperimentDirStructure "More than one params.pkl file found!") /\
  verify_experiment_dir (RefFS.glob tree_hidden_and_visible) "/runs" = Ok "/runs/b".
Proof.
  assert (Hruns : "/runs" <> "") by discriminate.
  split; [|split; [|split]].
  - refine (proj1 (proj2 (verify_experiment_dir_visible_children
                            tree_one_child "/runs" eq_refl Hruns eq_refl _ eq_refl))
              "a" eq_refl).
    repeat constructor.
  - refine (proj1 (proj2 (proj2 (verify_experiment_dir_visible_children
                                   tree_no_child "/runs" eq_refl Hruns eq_refl _ eq_refl)))
              eq_refl).
    repeat constructor.
  - refine (proj2 (proj2 (proj2 (verify_experiment_dir_visible_children
                                   tree_two_children "/runs" eq_refl Hruns eq_refl _ eq_refl)))
              _).
    + repeat constructor.
    + vm_compute. lia.
  - refine (proj1 (proj2 (verify_experiment_dir_visible_children
                            tree_hidden_and_visible "/runs" eq_refl Hruns eq_refl _ eq_refl))
              "b" eq_refl).
    repeat constructor.
Defined.


(** A suffix below zero does not replace the starting [-1]. *)
Example select_latest_negative :
  int (last_field "/exp/checkpoint_-5") = Some (-5) /\
  find_checkpoint_dir (RefFS.glob tree_negative) "/exp" None = Ok (-1, None).
Proof. split; reflexivity. Qed.


(** C7: three rollouts of two steps. *)
Lemma run_rollouts_record_count_witness :
  exists st tr,
    @run_rollouts (stub 2) 2 tt 0%nat "/exp/eval/ckpt_12/eval.log" 3 = (Some st, tr) /\
    Z.of_nat (length (written tr)) = 6 /\
    numbering (written tr) = [(0, 1); (0, 2); (1, 1); (1, 2); (2, 1); (2, 2)].
Proof.
  apply (@run_rollouts_record_count (stub 2) 2 2 tt 0%nat
           "/exp/eval/ckpt_12/eval.log" 3).
  - exists (fun left : nat => left). split.
    + intros env. reflexivity.
    + intros env action m Hleft. simpl in Hleft. subst env.
      split; [destruct m; reflexivity|reflexivity].
  - lia.
  - lia.
  - lia.
Defined.

(** C8: the second record of a rollout carries the sum of both rewards. *)
Lemma episode_reward_is_running_sum_witness :
  snd one_rollout = (before_second ++ FileWrite second_record :: [FileClose])%list /\
  rewards_since_reset [] before_second = [2; 1] /\
  episode_reward second_record = 2 + 1 /\
  step_number second_record = 2.
Proof.
  split; [reflexivity|]. split; [reflexivity|].
  apply (@episode_reward_is_running_sum (stub 2) 2 tt 0%nat
           "/exp/eval/ckpt_12/eval.log" 1 before_second second_record [FileClose]).
  reflexivity.
Defined.



End Concrete.

(** * Further properties *)

(** ** [str] and [int] *)

Section DecimalFacts.

Local Open Scope string_scope.

Lemma digits_from_uint (d : Decimal.uint) :
  forall acc,
    digits_from acc false (list_ascii_of_string (NilEmpty.string_of_uint d))
    = Some (uint_value acc d).
Proof.
  induction d; intros acc; cbn [NilEmpty.string_of_uint list_ascii_of_string];
    try reflexivity;
    cbn [digits_from]; apply IHd.
Qed.

Lemma uint_value_acc (d : Decimal.uint) :
  forall acc : positive,
    Z.pos (Pos.of_uint_acc d acc) = uint_value (Z.pos acc) d.
Proof.
  induction d; intros acc; cbn [Pos.of_uint_acc uint_value];
    try reflexivity;
    rewrite IHd; f_equal; lia.
Qed.

Lemma uint_value_of_uint (d : Decimal.uint) :
  uint_value 0 d = Z.of_N (Pos.of_uint d).
Proof.
  induction d; cbn [Pos.of_uint uint_value]; try reflexivity;
    try exact IHd;
    cbn [Z.of_N]; now rewrite uint_value_acc.
Qed.

Lemma all_digits_uint (d : Decimal.uint) :
  forallb is_digit (list_ascii_of_string (NilEmpty.string_of_uint d)) = true.
Proof. induction d; simpl; trivial. Qed.

Lemma digit_not_space (c : ascii) : is_digit c = true -> is_space c = false.
Proof.
  unfold is_digit, digit_of, is_space.
  destruct (Nat.leb_spec 48 (nat_of_ascii c)), (Nat.leb_spec (nat_of_ascii c) 57);
    cbn [andb]; try discriminate.
  intros _.
  destruct (Nat.leb_spec 9 (nat_of_ascii c)), (Nat.leb_spec (nat_of_ascii c) 13),
    (Nat.eqb_spec (nat_of_ascii c) 32); cbn [andb orb]; try reflexivity; lia.
Qed.

(** White space is only dropped at the ends. *)
Lemma strip_inner (first : ascii) (l : list ascii) :
  is_space first = false ->
  is_space (last l first) = false ->
  strip (first :: l) = first :: l.
Proof.
  intros Hfirst Hlast.
  unfold strip. cbn [lstrip]. rewrite Hfirst.
  destruct (rev (first :: l)) as [|c r] eqn:Erev.
  - apply (f_equal (@rev ascii)) in Erev. rewrite rev_involutive in Erev.
    discriminate Erev.
  - assert (Hc : c = last l first).
    { apply (f_equal (@rev ascii)) in Erev. rewrite rev_involutive in Erev.
      cbn [rev] in Erev.
      assert (H : last (first :: l) first = c) by (rewrite Erev; apply last_last).
      destruct l; symmetry; exact H. }
    cbn [lstrip]. rewrite Hc, Hlast, <- Hc, <- Erev.
    apply rev_involutive.
Qed.

Lemma last_forallb (f : ascii -> bool) (l : list ascii) (d : ascii) :
  forallb f l = true -> f d = true -> f (last l d) = true.
Proof.
  induction l as [|x l IH]; intros Hl Hd; [exact Hd|].
  simpl in Hl. apply andb_prop in Hl. destruct Hl as [Hx Hl].
  destruct l as [|y l']; [exact Hx|].
  change (f (last (y :: l') d) = true). now apply IH.
Qed.

Lemma last_cons {A : Type} (l : list A) :
  forall x d, last (x :: l) d = last l x.
Proof.
  induction l as [|y l IH]; intros x d; [reflexivity|].
  change (last (x :: y :: l) d) with (last (y :: l) d).
  change (last (y :: l) x) with (last (y :: l) x).
  now rewrite !IH.
Qed.

(** [int] reads the digits of a numeral back. *)
Lemma int_of_uint (d : Decimal.uint) :
  d <> Decimal.Nil ->
  int (NilEmpty.string_of_uint d) = Some (uint_value 0 d) /\
  int (String "-" (NilEmpty.string_of_uint d)) = Some (- uint_value 0 d).
Proof.
  intros Hd.
  pose proof (all_digits_uint d) as Hall.
  pose proof (digits_from_uint d) as Hdigits.
  destruct (list_ascii_of_string (NilEmpty.string_of_uint d)) as [|c l] eqn:El.
  { destruct d; try discriminate El. contradiction. }
  cbn [forallb] in Hall. apply andb_prop in Hall. destruct Hall as [Hc Hl].
  assert (Hlast : is_space (last l c) = false).
  { apply digit_not_space. now apply last_forallb. }
  assert (Hmag : magnitude (c :: l) = Some (uint_value 0 d)).
  { destruct d; try contradiction;
      cbn [NilEmpty.string_of_uint list_ascii_of_string] in El;
      injection El as <- <-; cbn [magnitude uint_value];
      exact (digits_from_uint d _). }
  split.
  - unfold int. rewrite El.
    rewrite strip_inner by first [assumption | apply digit_not_space; assumption].
    assert (Hminus : Ascii.eqb c "-" = false).
    { destruct (Ascii.eqb_spec c "-"); [subst c; discriminate Hc|reflexivity]. }
    assert (Hplus : Ascii.eqb c "+" = false).
    { destruct (Ascii.eqb_spec c "+"); [subst c; discriminate Hc|reflexivity]. }
    now rewrite Hminus, Hplus.
  - unfold int. cbn [list_ascii_of_string]. rewrite El.
    rewrite strip_inner.
    + cbn. fold (magnitude (c :: l)). now rewrite Hmag.
    + reflexivity.
    + rewrite last_cons. exact Hlast.
Qed.

(** Formatting an integer and reading it back. *)
Lemma int_str (n : Z) : int (str n) = Some n.
Proof.
  unfold str.
  destruct n as [|p|p]; [reflexivity| |];
    cbn [Z.to_int NilZero.string_of_int];
    pose proof (DecimalPos.Unsigned.of_to p) as Hp;
    (assert (Hnil : Pos.to_uint p <> Decimal.Nil)
      by (intros E; rewrite E in Hp; discriminate Hp));
    destruct (int_of_uint (Pos.to_uint p) Hnil) as [Hpos Hneg];
    rewrite uint_value_of_uint, Hp in Hpos, Hneg;
    unfold NilZero.string_of_uint;
    destruct (Pos.to_uint p); try contradiction; assumption.
Qed.

End DecimalFacts.

(** ** More on the checkpoint selector *)

Section SuffixFacts.

Local Open Scope string_scope.

Lemma split_plain (sep : ascii) (s : string) :
  contains sep s = false -> split sep s = [s].
Proof.
  unfold contains.
  induction s as [|c s IH]; [reflexivity|].
  cbn [list_ascii_of_string existsb split].
  intros H. apply orb_false_elim in H. destruct H as [Hc Hs].
  rewrite Ascii.eqb_sym, Hc, (IH Hs). reflexivity.
Qed.

(** Without underscore, the text after the last underscore is the whole
    text. *)
Lemma last_field_plain (s : string) : contains "_" s = false -> last_field s = s.
Proof. intros H. unfold last_field. now rewrite split_plain. Qed.

Lemma split_fields_plain (sep : ascii) (s : string) :
  Forall (fun field => contains sep field = false) (split sep s).
Proof.
  induction s as [|c s IH]; [repeat constructor|].
  cbn [split].
  destruct (Ascii.eqb c sep) eqn:Ec.
  - constructor; [reflexivity|exact IH].
  - destruct (split sep s) as [|h t]; [repeat constructor|].
    + unfold contains. cbn. now rewrite Ascii.eqb_sym, Ec.
    + inversion IH as [|? ? Hh Ht]; subst.
      constructor; [|exact Ht].
      unfold contains in *. cbn. now rewrite Ascii.eqb_sym, Ec.
Qed.

(** The text after the last underscore has no underscore. *)
Lemma last_field_clean (s : string) : contains "_" (last_field s) = false.
Proof.
  unfold last_field.
  pose proof (split_fields_plain "_" s) as H.
  pose proof (split_nonempty "_" s) as Hne.
  induction (split "_"%char s) as [|x l IH]; [contradiction|].
  inversion H as [|? ? Hx Hl]; subst.
  destruct l as [|y l']; [exact Hx|].
  change (contains "_" (last (y :: l') "") = false).
  apply IH; [exact Hl|discriminate].
Qed.

Lemma contains_uint (d : Decimal.uint) :
  contains "_" (NilEmpty.string_of_uint d) = false.
Proof. induction d; simpl; trivial. Qed.

Lemma contains_str (n : Z) : contains "_" (str n) = false.
Proof.
  unfold str, NilZero.string_of_int, NilZero.string_of_uint.
  destruct (Z.to_int n) as [d|d]; destruct d; try reflexivity;
    match goal with
    | |- contains _ (NilEmpty.string_of_uint ?u) = false => apply (contains_uint u)
    | |- contains _ (String _ (NilEmpty.string_of_uint ?u)) = false =>
        apply (contains_uint u)
    end.
Qed.

(** The suffix of a path in a directory named [checkpoint_<n>]. *)
Lemma last_field_numbered (dir : string) (n : Z) :
  last_field (dir ++ "/checkpoint_" ++ str n) = str n.
Proof.
  rewrite last_field_checkpoint.
  change ("checkpoint_" ++ str n) with ("checkpoint" ++ String "_" (str n)).
  rewrite last_field_append.
  apply last_field_plain, contains_str.
Qed.

End SuffixFacts.

Section SelectorMore.

Variable glob : string -> list string.

Local Open Scope string_scope.

(** A loop that ends normally has read numbers only. *)
Lemma latest_checkpoint_ok_numeric (ckpt_dirs : list string) :
  forall cur cur_str r,
    latest_checkpoint ckpt_dirs cur cur_str = Ok r -> Forall numeric ckpt_dirs.
Proof.
  induction ckpt_dirs as [|m0 rest IH]; intros cur cur_str r Hrun; [constructor|].
  cbn [latest_checkpoint] in Hrun.
  destruct (int (last_field m0)) as [v0|] eqn:Ev0; [|discriminate].
  constructor.
  - unfold numeric. congruence.
  - destruct (cur <? v0)%Z; eapply IH; exact Hrun.
Qed.

(** What the loop started from [(-1, None)] returns: the sentinel pair when
    no suffix is above [-1], otherwise a number that is not negative with
    the suffix it was read from. *)
Lemma latest_checkpoint_result (ckpt_dirs : list string) (best : Z)
    (s : option string) :
  latest_checkpoint ckpt_dirs (-1) None = Ok (best, s) ->
  bounded_by best ckpt_dirs /\
  ((best = -1 /\ s = None) \/
   (0 <= best /\
    exists m, In m ckpt_dirs /\ s = Some (last_field m) /\
              int (last_field m) = Some best)).
Proof.
  intros Hrun.
  pose proof (latest_checkpoint_ok_numeric _ _ _ _ Hrun) as Hnum.
  destruct (latest_checkpoint_numeric ckpt_dirs Hnum (-1) None)
    as (best' & s' & Hrun' & Hle & Hbound & Hcase).
  rewrite Hrun in Hrun'. injection Hrun' as <- <-.
  split; [exact Hbound|].
  destruct Hcase as [[-> ->]|(Hlt & before & m & after & -> & -> & Hm & _)].
  - now left.
  - right. split; [lia|].
    exists m. repeat split; [|exact Hm].
    apply in_or_app. right. now left.
Qed.

(** X1.  With no requested number, a normal return of
    [find_checkpoint_dir] is either the pair [(-1, None)], when no
    [checkpoint_*] match has a suffix above [-1], or a number that is not
    negative together with the suffix of a match that [int] reads as that
    number: the string handed on never disagrees with the number, and it is
    [None] exactly when the number is [-1]. *)
Theorem find_checkpoint_dir_latest_consistent (dir : string) (best : Z)
    (s : option string) :
  find_checkpoint_dir glob dir None = Ok (best, s) ->
  bounded_by best (glob (dir ++ "/checkpoint_*")) /\
  ((best = -1 /\ s = None) \/
   (0 <= best /\
    exists m, In m (glob (dir ++ "/checkpoint_*")) /\
              s = Some (last_field m) /\ int (last_field m) = Some best)).
Proof. apply latest_checkpoint_result. Qed.

(** X2.  When the [checkpoint_*] matches are the directories
    [checkpoint_<n>] of a list of numbers, none of them negative and at least
    one, [find_checkpoint_dir] without a request returns the largest number
    of the list with its decimal form. *)
Theorem find_checkpoint_dir_numbered (dir : string) (numbers : list Z) :
  glob (dir ++ "/checkpoint_*")
  = map (fun n => dir ++ "/checkpoint_" ++ str n) numbers ->
  Forall (fun n => 0 <= n) numbers ->
  numbers <> [] ->
  exists best,
    In best numbers /\
    Forall (fun n => n <= best) numbers /\
    find_checkpoint_dir glob dir None = Ok (best, Some (str best)).
Proof.
  intros Hglob Hpos Hne.
  unfold find_checkpoint_dir. rewrite Hglob.
  set (ckpt_dirs := map (fun n => dir ++ "/checkpoint_" ++ str n) numbers).
  assert (Hread : forall n, int (last_field (dir ++ "/checkpoint_" ++ str n)) = Some n).
  { intros n. rewrite last_field_numbered. apply int_str. }
  assert (Hnum : Forall numeric ckpt_dirs).
  { apply Forall_forall. intros m Hin.
    apply in_map_iff in Hin. destruct Hin as (n & <- & _).
    unfold numeric. now rewrite Hread. }
  destruct (latest_checkpoint_numeric ckpt_dirs Hnum (-1) None)
    as (best & s & Hrun & _ & Hbound & Hcase).
  unfold bounded_by in Hbound. rewrite Forall_forall in Hbound.
  assert (Hall : forall n, In n numbers -> n <= best).
  { intros n Hin. apply (Hbound (dir ++ "/checkpoint_" ++ str n)).
    - apply in_map_iff. now exists n.
    - apply Hread. }
  destruct Hcase as [[-> ->]|(_ & before & m & after & Hsplit & -> & Hm & _)].
  - exfalso. destruct numbers as [|n rest]; [contradiction|].
    inversion Hpos as [|? ? Hn _]; subst.
    specialize (Hall n (or_introl eq_refl)). lia.
  - assert (Hin : In m ckpt_dirs).
    { rewrite Hsplit. apply in_or_app. right. now left. }
    apply in_map_iff in Hin. destruct Hin as (n & <- & Hn).
    rewrite Hread in Hm. injection Hm as <-.
    exists n. repeat split; [exact Hn|now apply Forall_forall|].
    now rewrite Hrun, last_field_numbered.
Qed.

End SelectorMore.

Section ListingOrder.

Variables glob glob' : string -> list string.

Local Open Scope string_scope.

Lemma bounded_by_perm (bound : Z) (l l' : list string) :
  Permutation l l' -> bounded_by bound l -> bounded_by bound l'.
Proof. intros Hperm. unfold bounded_by. now apply Permutation_Forall. Qed.

Lemma latest_checkpoint_perm (l l' : list string) (best : Z) (s : option string) :
  Permutation l l' ->
  latest_checkpoint l (-1) None = Ok (best, s) ->
  exists s',
    latest_checkpoint l' (-1) None = Ok (best, s') /\
    (s = None <-> s' = None) /\
    (forall t', s' = Some t' ->
                int t' = Some best /\ exists m', In m' l' /\ t' = last_field m') /\
    ((forall m m', In m l -> In m' l ->
                   int (last_field m) = Some best ->
                   int (last_field m') = Some best ->
                   last_field m = last_field m') ->
     s' = s).
Proof.
  intros Hperm Hrun.
  pose proof (latest_checkpoint_ok_numeric _ _ _ _ Hrun) as Hnum.
  assert (Hnum' : Forall numeric l') by now apply (Permutation_Forall Hperm).
  destruct (latest_checkpoint_numeric l' Hnum' (-1) None)
    as (best' & s' & Hrun' & _ & _ & _).
  destruct (latest_checkpoint_result l best s Hrun) as [Hbound Hcase].
  destruct (latest_checkpoint_result l' best' s' Hrun') as [Hbound' Hcase'].
  apply (bounded_by_perm _ _ _ Hperm) in Hbound.
  apply (bounded_by_perm _ _ _ (Permutation_sym Hperm)) in Hbound'.
  unfold bounded_by in Hbound, Hbound'. rewrite Forall_forall in Hbound, Hbound'.
  assert (Hsame : best = best').
  { destruct Hcase as [[-> ->]|(Hpos & m & Hin & -> & Hm)];
      destruct Hcase' as [[-> ->]|(Hpos' & m' & Hin' & -> & Hm')].
    - reflexivity.
    - specialize (Hbound m' Hin' best' Hm'). lia.
    - specialize (Hbound' m Hin best Hm). lia.
    - specialize (Hbound m' Hin' best' Hm').
      specialize (Hbound' m Hin best Hm).
      lia. }
  subst best'.
  exists s'. split; [exact Hrun'|].
  destruct Hcase as [[-> ->]|(Hpos & m & Hin & -> & Hm)];
    destruct Hcase' as [[Hbest ->]|(Hpos' & m' & Hin' & -> & Hm')]; try lia.
  - split; [tauto|]. split; [discriminate|reflexivity].
  - split; [split; discriminate|]. split.
    + intros t' [= <-]. split; [exact Hm'|]. now exists m'.
    + intros Hone. f_equal. apply Hone; try assumption.
      now apply (Permutation_in _ (Permutation_sym Hperm)).
Qed.

(** A loop that raises met a suffix [int] rejects. *)
Lemma latest_checkpoint_raise (l : list string) :
  forall cur cur_str e,
    latest_checkpoint l cur cur_str = Raise e ->
    Exists (fun m => int (last_field m) = None) l.
Proof.
  induction l as [|m0 rest IH]; intros cur cur_str e Hrun; [discriminate|].
  cbn [latest_checkpoint] in Hrun.
  destruct (int (last_field m0)) as [v0|] eqn:Ev0; [|now constructor].
  apply Exists_cons_tl.
  destruct (cur <? v0)%Z; eapply IH; exact Hrun.
Qed.

(** X3.  The number [find_checkpoint_dir] returns without a request does
    not depend on the order in which the directory is listed; the string
    it returns with the number can.  For two listings of [checkpoint_*]
    that hold the same paths in a different order: when the selector
    returns normally on one, it returns the same number on the other, with
    a string on both or on neither; each string is the suffix of a listed
    path that [int] reads as the number returned, so the two strings are
    the same when all listed suffixes that [int] reads as that number are
    the same text (of [checkpoint_07] and [checkpoint_7], the one listed
    first gives the string).  When the selector raises on one listing, it
    raises a [ValueError] on the other. *)
Theorem find_checkpoint_dir_listing_order (dir : string) :
  Permutation (glob (dir ++ "/checkpoint_*")) (glob' (dir ++ "/checkpoint_*")) ->
  (forall best s,
      find_checkpoint_dir glob dir None = Ok (best, s) ->
      exists s',
        find_checkpoint_dir glob' dir None = Ok (best, s') /\
        (s = None <-> s' = None) /\
        (forall t', s' = Some t' ->
                    int t' = Some best /\
                    exists m', In m' (glob' (dir ++ "/checkpoint_*")) /\
                               t' = last_field m') /\
        ((forall m m', In m (glob (dir ++ "/checkpoint_*")) ->
                       In m' (glob (dir ++ "/checkpoint_*")) ->
                       int (last_field m) = Some best ->
                       int (last_field m') = Some best ->
                       last_field m = last_field m') ->
         s' = s)) /\
  (forall e,
      find_checkpoint_dir glob dir None = Raise e ->
      exists literal, find_checkpoint_dir glob' dir None = Raise (ValueError literal)).
Proof.
  intros Hperm. split.
  - intros best s. now apply latest_checkpoint_perm.
  - intros e Hrun.
    apply latest_checkpoint_raise in Hrun.
    assert (Hex : Exists (fun m => int (last_field m) = None)
                         (glob' (dir ++ "/checkpoint_*"))).
    { apply Exists_exists in Hrun. destruct Hrun as (m & Hin & Hm).
      apply Exists_exists. exists m. split; [|exact Hm].
      now apply (Permutation_in _ Hperm). }
    destruct (latest_checkpoint_not_numeric _ Hex (-1) None) as (lit & Hraise & _).
    now exists lit.
Qed.

End ListingOrder.

Section MainMore.

Variable glob : string -> list string.

Local Open Scope string_scope.

Lemma append_inj (a b c : string) : a ++ b = a ++ c -> b = c.
Proof.
  induction a as [|x a IH]; simpl; intros H; [exact H|].
  injection H as H. now apply IH.
Qed.

(** X4.  With a requested number [n] and the single match
    [parent/checkpoint_<rest>], [main] builds the checkpoint directory name
    from the text after the last underscore of [rest] and the file name from
    [n]; the directory name it builds is the name of the matched directory
    exactly when [rest] has no underscore. *)
Theorem main_requested_checkpoint_dir (a : args) (dir : string) (n : Z)
    (parent rest : string) :
  arg_ckpt_num a = Some n ->
  verify_experiment_dir glob (arg_dir a) = Ok dir ->
  glob (dir ++ "/checkpoint_*" ++ str n) = [parent ++ "/checkpoint_" ++ rest] ->
  exists p,
    main_paths glob a = Ok p /\
    ckpt_dir p = "checkpoint_" ++ last_field rest /\
    ckpt_filename p = "checkpoint-" ++ str n /\
    ckpt_path p
    = path_join (path_join dir (ckpt_dir p)) ("checkpoint-" ++ str n) /\
    (ckpt_dir p = "checkpoint_" ++ rest <-> contains "_" rest = false).
Proof.
  intros Hreq Hdir Hglob.
  assert (Hfind : find_checkpoint_dir glob dir (arg_ckpt_num a)
                  = Ok (n, Some (last_field rest))).
  { rewrite Hreq. unfold find_checkpoint_dir. rewrite Hglob.
    cbn [length Nat.eqb nth].
    rewrite last_field_checkpoint.
    change ("checkpoint_" ++ rest) with ("checkpoint" ++ String "_" rest).
    now rewrite last_field_append. }
  destruct (main_paths_resolved glob a dir n (Some (last_field rest)) Hdir Hfind)
    as (p & Hp & _ & _ & _ & Hd & Hf & Hpath & _).
  exists p.
  split; [exact Hp|]. split; [exact Hd|]. split; [exact Hf|].
  split; [now rewrite Hd|].
  rewrite Hd. cbn [format_opt]. split.
  - intros Heq. apply (append_inj "checkpoint_") in Heq.
    rewrite <- Heq. apply last_field_clean.
  - intros Hplain. now rewrite last_field_plain.
Qed.

End MainMore.

(** ** More on the rollout runner *)

Section RunnerMore.

Context {C : Collaborators}.

Local Open Scope list_scope.

Lemma stepwise_app (tr1 tr2 : list event) :
  stepwise tr1 -> stepwise tr2 -> stepwise (tr1 ++ tr2).
Proof.
  intros H1 H2. induction H1; simpl; try constructor; assumption.
Qed.

Lemma stepwise_steps (tr : list event) :
  stepwise tr -> length (written tr) = env_steps tr.
Proof. induction 1; simpl; congruence. Qed.

(** In such a trace a write comes right after the action and the step
    whose record it is. *)
Lemma stepwise_write (tr : list event) :
  stepwise tr ->
  forall pre rec post,
    tr = pre ++ FileWrite rec :: post ->
    exists pre' a o r done i,
      pre = pre' ++ [ComputeAction a; EnvStep o r done i] /\ carries rec a o i.
Proof.
  induction 1 as [|a o r done i rec0 tr Hrec Htr IH|o tr Htr IH|path tr Htr IH|tr Htr IH];
    intros pre rec post Hsplit.
  - destruct pre; discriminate Hsplit.
  - destruct pre as [|e1 [|e2 [|e3 pre]]]; try discriminate Hsplit.
    + injection Hsplit as <- <- <- _.
      exists [], a, o, r, done, i. split; [reflexivity|exact Hrec].
    + injection Hsplit as <- <- <- Hrest.
      destruct (IH _ _ _ Hrest) as (pre' & a' & o' & r' & d' & i' & -> & Hc).
      exists (ComputeAction a :: EnvStep o r done i :: FileWrite rec0 :: pre'),
        a', o', r', d', i'.
      split; [reflexivity|exact Hc].
  - destruct pre as [|e pre]; [discriminate Hsplit|].
    injection Hsplit as <- Hrest.
    destruct (IH _ _ _ Hrest) as (pre' & a' & o' & r' & d' & i' & -> & Hc).
    exists (EnvReset o :: pre'), a', o', r', d', i'. split; [reflexivity|exact Hc].
  - destruct pre as [|e pre]; [discriminate Hsplit|].
    injection Hsplit as <- Hrest.
    destruct (IH _ _ _ Hrest) as (pre' & a' & o' & r' & d' & i' & -> & Hc).
    exists (FileOpen path :: pre'), a', o', r', d', i'. split; [reflexivity|exact Hc].
  - destruct pre as [|e pre]; [discriminate Hsplit|].
    injection Hsplit as <- Hrest.
    destruct (IH _ _ _ Hrest) as (pre' & a' & o' & r' & d' & i' & -> & Hc).
    exists (FileClose :: pre'), a', o', r', d', i'. split; [reflexivity|exact Hc].
Qed.

Lemma episode_loop_stepwise (fuel : nat) :
  forall i agent env cur_obs step_num ep_reward,
    stepwise (snd (episode_loop fuel i agent env cur_obs step_num ep_reward)).
Proof.
  induction fuel as [|fuel IH]; intros i agent env cur_obs step_num ep_reward.
  - constructor.
  - loop_body ag1 action en1 o1 r d inf.
    destruct d.
    + simpl. constructor; [repeat split|constructor].
    + specialize (IH i ag1 en1 o1 (step_num + 1) (reward_add ep_reward r)).
      destruct (episode_loop fuel i ag1 en1 o1 (step_num + 1) (reward_add ep_reward r))
        as [res tr].
      simpl in *. constructor; [repeat split|exact IH].
Qed.

Lemma rollout_stepwise (fuel : nat) (log_dir : string) (i : Z)
    (agent : AgentState) (env : EnvState) :
  stepwise (snd (rollout fuel log_dir i agent env)).
Proof.
  unfold rollout.
  destruct (env_reset env) as [env0 obs0].
  pose proof (episode_loop_stepwise fuel i agent env0 obs0 0 reward_zero) as H.
  destruct (episode_loop fuel i agent env0 obs0 0 reward_zero) as [[st|] tr];
    simpl in *; do 2 constructor; [|exact H].
  apply stepwise_app; [exact H|repeat constructor].
Qed.

Lemma rollouts_stepwise (fuel : nat) (log_dir : string) (indices : list Z) :
  forall agent env, stepwise (snd (rollouts fuel log_dir indices agent env)).
Proof.
  induction indices as [|i rest IH]; intros agent env.
  - constructor.
  - cbn [rollouts].
    pose proof (rollout_stepwise fuel log_dir i agent env) as H.
    destruct (rollout fuel log_dir i agent env) as [[[agent1 env1]|] tr].
    + specialize (IH agent1 env1).
      destruct (rollouts fuel log_dir rest agent1 env1) as [res tr'].
      simpl in *. now apply stepwise_app.
    + exact H.
Qed.

(** X5.  In every run of [run_rollouts], ended or not, one record is
    written per [env.step] call, right after it: a write is preceded by the
    action computed and the step taken, and its record holds that action
    as floats, the observation the step returned as a list, and the step's
    info, as it is when [is_jsonable] accepts it and through [jsonify]
    otherwise. *)
Theorem one_record_per_step (fuel : nat) (agent : AgentState) (env : EnvState)
    (log_dir : string) (num_rollouts : Z) :
  let tr := snd (run_rollouts fuel agent env log_dir num_rollouts) in
  length (written tr) = env_steps tr /\
  forall pre rec post,
    tr = pre ++ FileWrite rec :: post ->
    exists pre' a o r done i,
      pre = pre' ++ [ComputeAction a; EnvStep o r done i] /\ carries rec a o i.
Proof.
  intros tr.
  assert (H : stepwise tr) by apply rollouts_stepwise.
  split; [now apply stepwise_steps|now apply stepwise_write].
Qed.

(** *** The log handle in any run *)

Lemma rollout_open_cycle (fuel : nat) (log_dir : string) (i : Z)
    (agent : AgentState) (env : EnvState) (tr : list event) :
  rollout fuel log_dir i agent env = (None, tr) ->
  file_events tr = open_cycle log_dir (written tr).
Proof.
  unfold rollout.
  destruct (env_reset env) as [env0 obs0].
  pose proof (episode_loop_file_events fuel i agent env0 obs0 0 reward_zero) as H.
  destruct (episode_loop fuel i agent env0 obs0 0 reward_zero) as [[st'|] tr'];
    [discriminate|].
  simpl in H. destruct H as (Hfile & _).
  intros [= <-].
  cbn [written file_events filter is_file_event].
  fold (file_events tr'). now rewrite Hfile.
Qed.

Lemma episode_loop_no_reset (fuel : nat) :
  forall i agent env cur_obs step_num ep_reward,
    env_resets (snd (episode_loop fuel i agent env cur_obs step_num ep_reward)) = 0%nat.
Proof.
  induction fuel as [|fuel IH]; intros i agent env cur_obs step_num ep_reward.
  - reflexivity.
  - loop_body ag1 action en1 o1 r d inf.
    destruct d; [reflexivity|].
    specialize (IH i ag1 en1 o1 (step_num + 1) (reward_add ep_reward r)).
    destruct (episode_loop fuel i ag1 en1 o1 (step_num + 1) (reward_add ep_reward r))
      as [res tr].
    exact IH.
Qed.

Lemma env_resets_app (tr1 tr2 : list event) :
  env_resets (tr1 ++ tr2) = (env_resets tr1 + env_resets tr2)%nat.
Proof.
  induction tr1 as [|e tr1 IH]; [reflexivity|].
  destruct e; simpl; now rewrite IH.
Qed.

Lemma rollout_one_reset (fuel : nat) (log_dir : string) (i : Z)
    (agent : AgentState) (env : EnvState) :
  env_resets (snd (rollout fuel log_dir i agent env)) = 1%nat.
Proof.
  unfold rollout.
  destruct (env_reset env) as [env0 obs0].
  pose proof (episode_loop_no_reset fuel i agent env0 obs0 0 reward_zero) as H.
  destruct (episode_loop fuel i agent env0 obs0 0 reward_zero) as [[st'|] tr'];
    simpl in *; [rewrite env_resets_app|]; rewrite H; reflexivity.
Qed.

(** What a list of rollouts leaves on the file: a full cycle for each
    rollout that ended, then, if the last one started did not end, an open
    and its records so far. *)
Lemma rollouts_log (fuel : nat) (log_dir : string) (indices : list Z) :
  forall agent env res tr,
    rollouts fuel log_dir indices agent env = (res, tr) ->
    exists (episodes : list (list step_record)) (unfinished : list step_record),
      file_events tr
      = flat_map (rollout_cycle log_dir) episodes
        ++ match res with
           | Some _ => []
           | None => open_cycle log_dir unfinished
           end /\
      written tr
      = concat episodes ++ match res with Some _ => [] | None => unfinished end /\
      env_resets tr
      = (length episodes + match res with Some _ => 0 | None => 1 end)%nat.
Proof.
  induction indices as [|i rest IH]; intros agent env res tr.
  - intros [= <- <-]. exists [], []. repeat split.
  - cbn [rollouts].
    pose proof (rollout_one_reset fuel log_dir i agent env) as Hreset.
    destruct (rollout fuel log_dir i agent env) as [[[agent1 env1]|] tr1] eqn:E1.
    + destruct (rollouts fuel log_dir rest agent1 env1) as [res2 tr2] eqn:E2.
      intros [= <- <-].
      destruct (rollout_cycle_of _ _ _ _ _ _ _ E1) as (Hfile & _).
      destruct (IH _ _ _ _ E2) as (episodes & unfinished & Hfiles & Hwritten & Hresets).
      exists (written tr1 :: episodes), unfinished.
      rewrite file_events_app, written_app, env_resets_app.
      simpl in Hreset. rewrite Hreset, Hfile, Hfiles, Hwritten, Hresets.
      cbn [flat_map concat length]. rewrite <- !app_assoc.
      repeat split.
    + intros [= <- <-].
      pose proof (rollout_open_cycle _ _ _ _ _ _ E1) as Hfile.
      exists [], (written tr1).
      simpl in Hreset. rewrite Hfile, Hreset. repeat split.
Qed.

Lemma opened_file_events (tr : list event) : opened tr = opened (file_events tr).
Proof.
  induction tr as [|e tr IH]; [reflexivity|].
  destruct e; simpl; now rewrite ?IH.
Qed.

Lemma opened_writes (recs : list step_record) : opened (map FileWrite recs) = [].
Proof. induction recs; simpl; auto. Qed.

Lemma opened_cycles (log_dir : string) (episodes : list (list step_record)) :
  opened (flat_map (rollout_cycle log_dir) episodes)
  = map (fun _ => log_dir) episodes.
Proof.
  induction episodes as [|recs episodes IH]; [reflexivity|].
  cbn [flat_map map]. rewrite opened_app, IH.
  unfold rollout_cycle. cbn [opened]. rewrite opened_app, opened_writes.
  reflexivity.
Qed.

(** X6.  In every run of [run_rollouts], ended or not, the log file sees a
    full cycle, open, records, close, for each rollout that ended, and, when
    the run is cut in the middle of a rollout, one more open followed by
    the records written so far: a record is only written to the handle
    opened last, a handle is closed before the next one is opened, and the
    log is opened as many times as the environment is reset. *)
Theorem log_handle_discipline (fuel : nat) (agent : AgentState) (env : EnvState)
    (log_dir : string) (num_rollouts : Z) :
  let run := run_rollouts fuel agent env log_dir num_rollouts in
  exists (episodes : list (list step_record)) (unfinished : list step_record),
    file_events (snd run)
    = flat_map (rollout_cycle log_dir) episodes
      ++ match fst run with
         | Some _ => []
         | None => open_cycle log_dir unfinished
         end /\
    written (snd run)
    = concat episodes ++ match fst run with Some _ => [] | None => unfinished end /\
    length (opened (snd run)) = env_resets (snd run).
Proof.
  intros run.
  destruct run as [res tr] eqn:Erun.
  destruct (rollouts_log _ _ _ _ _ _ _ Erun)
    as (episodes & unfinished & Hfiles & Hwritten & Hresets).
  exists episodes, unfinished. cbn [fst snd].
  split; [exact Hfiles|]. split; [exact Hwritten|].
  rewrite Hresets.
  rewrite opened_file_events, Hfiles, opened_app, opened_cycles.
  rewrite length_app, length_map.
  destruct res; [reflexivity|].
  unfold open_cycle. cbn [opened length].
  now rewrite opened_writes.
Qed.

(** *** Rollouts one after the other *)

Lemma rollouts_app (fuel : nat) (log_dir : string) (l1 l2 : list Z) :
  forall agent env,
    rollouts fuel log_dir (l1 ++ l2) agent env
    = match rollouts fuel log_dir l1 agent env with
      | (Some (agent1, env1), tr1) =>
          let (res, tr2) := rollouts fuel log_dir l2 agent1 env1 in
          (res, tr1 ++ tr2)
      | (None, tr1) => (None, tr1)
      end.
Proof.
  induction l1 as [|i l1 IH]; intros agent env.
  - cbn [app rollouts]. now destruct (rollouts fuel log_dir l2 agent env).
  - cbn [app rollouts].
    destruct (rollout fuel log_dir i agent env) as [[[agent1 env1]|] tr]; [|reflexivity].
    rewrite IH.
    destruct (rollouts fuel log_dir l1 agent1 env1) as [[[agent2 env2]|] tr1];
      [|reflexivity].
    destruct (rollouts fuel log_dir l2 agent2 env2) as [res tr2].
    now rewrite app_assoc.
Qed.

Lemma seq_from (n m : nat) : seq n m = map (Nat.add n) (seq 0 m).
Proof.
  induction n as [|n IH].
  - rewrite <- (map_id (seq 0 m)) at 1. apply map_ext. reflexivity.
  - rewrite <- seq_shift, IH, map_map. apply map_ext. reflexivity.
Qed.

Lemma range_add (n m : Z) :
  0 <= n -> 0 <= m -> range (n + m) = range n ++ map (Z.add n) (range m).
Proof.
  intros Hn Hm. unfold range.
  rewrite Z2Nat.inj_add by assumption.
  rewrite seq_app, map_app. f_equal.
  cbn [Nat.add]. rewrite seq_from, !map_map.
  apply map_ext. intros k. lia.
Qed.

(** X7.  Rollouts do not depend on how many follow: when [n] rollouts end,
    a run of [n + m] rollouts does the same [n] rollouts first and goes on,
    from the trainer and the environment they left, with the rollouts
    numbered [n], ..., [n + m - 1]. *)
Theorem run_rollouts_extend (fuel : nat) (agent : AgentState) (env : EnvState)
    (log_dir : string) (n m : Z) (agent1 : AgentState) (env1 : EnvState)
    (tr : list event) :
  0 <= n -> 0 <= m ->
  run_rollouts fuel agent env log_dir n = (Some (agent1, env1), tr) ->
  run_rollouts fuel agent env log_dir (n + m)
  = let (res, tr') := rollouts fuel log_dir (map (Z.add n) (range m)) agent1 env1 in
    (res, tr ++ tr').
Proof.
  intros Hn Hm Hrun.
  unfold run_rollouts in *.
  now rewrite range_add, rollouts_app, Hrun by assumption.
Qed.

(** The records of one pass through the [while] loop are numbered from
    [step_num + 1] on, and a loop that ends has written at least one. *)
Lemma episode_loop_numbered (fuel : nat) :
  forall i agent env cur_obs step_num ep_reward,
    let run := episode_loop fuel i agent env cur_obs step_num ep_reward in
    numbering (written (snd run))
    = map (fun j => (i, step_num + j)) (steps (length (written (snd run)))) /\
    (fst run <> None -> (1 <= length (written (snd run)))%nat).
Proof.
  induction fuel as [|fuel IH]; intros i agent env cur_obs step_num ep_reward.
  - split; [reflexivity|]. intros H. now contradiction H.
  - loop_body ag1 action en1 o1 r d inf.
    destruct d.
    + split; [reflexivity|]. intros _. cbn. lia.
    + specialize (IH i ag1 en1 o1 (step_num + 1) (reward_add ep_reward r)).
      destruct (episode_loop fuel i ag1 en1 o1 (step_num + 1) (reward_add ep_reward r))
        as [res tr].
      cbn [fst snd] in *. destruct IH as [Hnum Hone].
      cbn [app written length]. split; [|intros _; lia].
      rewrite steps_succ.
      cbn [numbering map rollout_num step_number].
      fold (numbering (written tr)).
      rewrite Hnum, map_map.
      f_equal. apply map_ext. intros j. f_equal. lia.
Qed.

Lemma rollout_numbered (fuel : nat) (log_dir : string) (i : Z)
    (agent : AgentState) (env : EnvState) :
  let run := rollout fuel log_dir i agent env in
  numbering (written (snd run)) = numbered (i, length (written (snd run))) /\
  (fst run <> None -> (1 <= length (written (snd run)))%nat).
Proof.
  unfold rollout.
  destruct (env_reset env) as [env0 obs0].
  pose proof (episode_loop_numbered fuel i agent env0 obs0 0 reward_zero) as Hloop.
  destruct (episode_loop fuel i agent env0 obs0 0 reward_zero) as [[st|] tr];
    cbn [fst snd] in *; destruct Hloop as [Hnum Hone];
    cbn [written]; rewrite ?written_app; cbn [written]; rewrite ?app_nil_r;
    (split; [|exact Hone]);
    rewrite Hnum; unfold numbered; cbn [fst snd];
    apply map_ext; intros j; reflexivity.
Qed.

Lemma rollouts_numbered (fuel : nat) (log_dir : string) (indices : list Z) :
  forall agent env,
    let run := rollouts fuel log_dir indices agent env in
    exists lens : list nat,
      (length lens <= length indices)%nat /\
      numbering (written (snd run)) = flat_map numbered (combine indices lens) /\
      Forall (fun k => (1 <= k)%nat) (removelast lens) /\
      (fst run <> None ->
       length lens = length indices /\ Forall (fun k => (1 <= k)%nat) lens).
Proof.
  induction indices as [|i rest IH]; intros agent env.
  - exists []. repeat split; constructor.
  - cbn [rollouts].
    pose proof (rollout_numbered fuel log_dir i agent env) as Hone.
    destruct (rollout fuel log_dir i agent env) as [[[agent1 env1]|] tr1];
      cbn [fst snd] in *; destruct Hone as [Hnum1 Hlen1].
    + specialize (IH agent1 env1).
      destruct (rollouts fuel log_dir rest agent1 env1) as [res tr2].
      cbn [fst snd] in *. destruct IH as (lens & Hlen & Hnum2 & Hbefore & Hended).
      assert (Hfirst : (1 <= length (written tr1))%nat)
        by (apply Hlen1; discriminate).
      exists (length (written tr1) :: lens).
      split; [cbn [length]; lia|]. split; [|split].
      * rewrite written_app, numbering_app, Hnum1, Hnum2. reflexivity.
      * destruct lens as [|k lens]; [constructor|].
        change (removelast (length (written tr1) :: k :: lens))
          with (length (written tr1) :: removelast (k :: lens)).
        now constructor.
      * intros Hres. destruct (Hended Hres) as [Hall Hpos].
        split; [cbn [length]; now rewrite Hall|].
        now constructor.
    + exists [length (written tr1)].
      split; [cbn [length]; lia|]. split; [|split].
      * rewrite Hnum1. destruct rest; cbn [combine flat_map]; now rewrite app_nil_r.
      * constructor.
      * intros H. now contradiction H.
Qed.

(** X18.  Whatever the environment does, the records of a run of
    [run_rollouts], ended or not, are numbered rollout after rollout: the
    records of rollout [0] come first with the step numbers [1, 2, ...],
    then those of rollout [1] with the step numbers starting again from
    [1], and so on.  No rollout number is skipped: every rollout but the
    last one that was started has written at least one record.  When the
    run ends, every rollout of [range(num_rollouts)] has written at least
    one record. *)
Theorem records_numbered (fuel : nat) (agent : AgentState) (env : EnvState)
    (log_dir : string) (num_rollouts : Z) :
  let run := run_rollouts fuel agent env log_dir num_rollouts in
  exists lens : list nat,
    (length lens <= length (range num_rollouts))%nat /\
    numbering (written (snd run))
    = flat_map numbered (combine (range num_rollouts) lens) /\
    Forall (fun k => (1 <= k)%nat) (removelast lens) /\
    (fst run <> None ->
     length lens = length (range num_rollouts) /\
     Forall (fun k => (1 <= k)%nat) lens).
Proof. apply rollouts_numbered. Qed.

End RunnerMore.

(** ** More on directory trees *)

Section TreeMore.

Import RefFS.

Local Open Scope string_scope.

(** Where the directory [verify_experiment_dir] returns on a tree comes
    from: it is [path] itself or a subdirectory of [path] with a visible
    name, and [params.pkl] exists in it. *)
Lemma verify_experiment_dir_tree_result (root : node) (path d : string) :
  has_magic path = false -> path <> "" -> ends_with_sep path = false ->
  Forall (fun name => plain_name name = true) (listdir root path true) ->
  verify_experiment_dir (glob root) path = Ok d ->
  lexists root (d ++ params_file) = true /\
  d <> "" /\ ends_with_sep d = false /\
  (d = path \/
   exists name, d = path ++ "/" ++ name /\ In name (listdir root path true)).
Proof.
  intros Hplain Hne Hend Hnames.
  unfold verify_experiment_dir.
  rewrite glob_params_direct, glob_children by assumption.
  destruct (lexists root (path ++ params_file)) eqn:Egiven.
  - intros [= <-]. repeat split; try assumption. now left.
  - cbn [length Nat.eqb].
    destruct (artifact_children root path) as [|name [|name' rest]] eqn:Echildren;
      [discriminate| |discriminate].
    cbn [map length Nat.eqb Nat.ltb Nat.leb nth].
    assert (Hc : In name (artifact_children root path))
      by (rewrite Echildren; now left).
    unfold artifact_children in Hc.
    apply filter_In in Hc. destruct Hc as [Hc Hexists].
    apply filter_In in Hc. destruct Hc as [Hin _].
    rewrite Forall_forall in Hnames.
    destruct (path_join_name path name Hne Hend (Hnames name Hin)) as [Hjoin Hend'].
    rewrite Hjoin in *.
    assert (Hd : path ++ "/" ++ name <> "") by apply append_nonempty.
    unfold glob_join in Hexists.
    assert (Hnonempty : String.eqb (path ++ "/" ++ name) "" = false)
      by now apply String.eqb_neq.
    rewrite Hnonempty in Hexists. cbn [String.eqb] in Hexists.
    rewrite (path_join_plain (path ++ "/" ++ name) "params.pkl") in *
      by (assumption || reflexivity).
    change ((path ++ "/" ++ name) ++ "/" ++ "params.pkl")
      with ((path ++ "/" ++ name) ++ params_file) in *.
    rewrite slice_off_suffix.
    intros [= <-]. repeat split; try assumption.
    right. now exists name.
Qed.

(** X8.  On a tree, for a plain [--dir] path whose subdirectories have
    usable names: when [main] gets through path resolution, the
    configuration file it is about to open,
    [os.path.join(expr_dir_path, 'params.pkl')], exists. *)
Theorem main_config_exists (root : node) (a : args) (p : paths) :
  has_magic (arg_dir a) = false -> arg_dir a <> "" ->
  ends_with_sep (arg_dir a) = false ->
  Forall (fun name => plain_name name = true) (listdir root (arg_dir a) true) ->
  main_paths (glob root) a = Ok p ->
  lexists root (ray_config_path p) = true.
Proof.
  intros Hplain Hne Hend Hnames Hp.
  destruct (main_paths_inv (glob root) a p Hp) as (Hdir & [s Hckpt] & _).
  destruct (main_paths_resolved (glob root) a _ _ _ Hdir Hckpt)
    as (p' & Hp' & _ & _ & Hconfig & _).
  rewrite Hp in Hp'. injection Hp' as <-.
  destruct (verify_experiment_dir_tree_result root _ _ Hplain Hne Hend Hnames Hdir)
    as (Hexists & Hd & Hend' & _).
  rewrite Hconfig, path_join_plain by (assumption || reflexivity).
  exact Hexists.
Qed.

(** X9.  On a tree, for a plain path whose subdirectories have usable
    names without wildcard characters, [verify_experiment_dir] is
    idempotent: the directory it returns is returned unchanged when it is
    verified again. *)
Theorem verify_experiment_dir_idempotent (root : node) (path d : string) :
  has_magic path = false -> path <> "" -> ends_with_sep path = false ->
  Forall (fun name => plain_name name = true /\ has_magic name = false)
         (listdir root path true) ->
  verify_experiment_dir (glob root) path = Ok d ->
  verify_experiment_dir (glob root) d = Ok d.
Proof.
  intros Hplain Hne Hend Hnames Hrun.
  assert (Hnames' : Forall (fun name => plain_name name = true)
                           (listdir root path true)).
  { eapply Forall_impl; [|exact Hnames]. now intros name [H _]. }
  destruct (verify_experiment_dir_tree_result root _ _ Hplain Hne Hend Hnames' Hrun)
    as (Hexists & Hd & Hend' & Hfrom).
  assert (Hplain' : has_magic d = false).
  { destruct Hfrom as [->|(name & -> & Hin)]; [exact Hplain|].
    rewrite Forall_forall in Hnames. destruct (Hnames name Hin) as [_ Hname].
    now rewrite !has_magic_append, Hplain, Hname. }
  unfold verify_experiment_dir.
  now rewrite glob_params_direct, Hexists by assumption.
Qed.

End TreeMore.

(** ** Command line *)

Section CommandLine.

Local Open Scope string_scope.

Lemma dest_eqb_refl (d : dest) : dest_eqb d d = true.
Proof. now destruct d. Qed.

(** What a successful parse started from [ns] returns: for each option the
    converted string of its last occurrence, or the value [ns] has; no help
    flag was met, every string given to an integer option was accepted, and
    [--dir] was seen. *)
Lemma parse_args_parsed (items : list cli_item) :
  forall ns seen unknown ns',
    parse_args items ns seen unknown = Parsed ns' ->
    ns_dir ns' = match last_value Dir items with
                 | Some v => v | None => ns_dir ns end /\
    ns_ckpt_num ns' = match last_value CkptNum items with
                      | Some v => int v | None => ns_ckpt_num ns end /\
    ns_seed ns' = match last_value Seed items with
                  | Some v => int v | None => ns_seed ns end /\
    ns_explore ns' = match last_value Explore items with
                     | Some v => py_bool v | None => ns_explore ns end /\
    ns_output_dir ns' = match last_value OutputDir items with
                        | Some v => Some v | None => ns_output_dir ns end /\
    Some (ns_num_rollouts ns')
    = match last_value NumRollouts items with
      | Some v => int v | None => Some (ns_num_rollouts ns) end /\
    (seen = true \/ last_value Dir items <> None) /\
    ~ In HelpFlag items /\
    (forall d v, In (Given d v) items -> int_typed d = true -> int v <> None).
Proof.
  induction items as [|item rest IH]; intros ns seen unknown ns' Hparse.
  - cbn [parse_args] in Hparse. destruct seen; [|discriminate].
    destruct unknown; [discriminate|].
    injection Hparse as <-. cbn [last_value In].
    repeat split; try reflexivity; [now left|tauto|tauto].
  - destruct item as [d v| | |]; [|discriminate| |discriminate].
    2:{ cbn [parse_args] in Hparse.
        destruct (IH _ _ _ _ Hparse)
          as (Hdir & Hckpt & Hseed & Hexplore & Hout & Hnum & Hseen & Hhelp & Hints).
        cbn [last_value]. repeat split; try assumption.
        - intros [Hhead|Htail]; [discriminate|contradiction].
        - intros d v [Hhead|Htail]; [discriminate|now apply Hints]. }
    cbn [parse_args] in Hparse.
    destruct (store ns d v) as [ns1|] eqn:Estore; [|discriminate].
    destruct (IH _ _ _ _ Hparse)
      as (Hdir & Hckpt & Hseed & Hexplore & Hout & Hnum & Hseen & Hhelp & Hints).
    cbn [last_value].
    assert (Hrest : ~ In HelpFlag (Given d v :: rest) /\
                    (forall d0 v0, In (Given d0 v0) (Given d v :: rest) ->
                                   int_typed d0 = true -> int v0 <> None)).
    { split.
      - intros [Hhead|Htail]; [discriminate|contradiction].
      - intros d0 v0 [Hhead|Htail] Htyped; [|now apply (Hints d0 v0)].
        injection Hhead as <- <-.
        destruct d; try discriminate Htyped; cbn [store] in Estore;
          destruct (int v); (discriminate || congruence). }
    destruct Hrest as [Hhelp' Hints'].
    destruct d; cbn [store] in Estore;
      try (destruct (int v) as [n|] eqn:Eint; [|discriminate]);
      cbn [option_map] in Estore; injection Estore as <-;
      cbn [ns_dir ns_ckpt_num ns_seed ns_explore ns_output_dir ns_num_rollouts]
        in Hdir, Hckpt, Hseed, Hexplore, Hout, Hnum;
      cbn [dest_eqb is_dir] in *;
      destruct (last_value Dir rest), (last_value CkptNum rest),
        (last_value Seed rest), (last_value Explore rest),
        (last_value OutputDir rest), (last_value NumRollouts rest);
      repeat split; try assumption; try congruence;
      try (right; discriminate);
      try (destruct Hseen as [Hseen|Hseen];
           [rewrite orb_false_r in Hseen; now left
           |now right]);
      try (destruct Hseen as [Hseen|Hseen]; [|contradiction]; now left).
Qed.

(** A successful parse set nothing aside and rejected no option. *)
Lemma parse_args_clean (items : list cli_item) :
  forall ns seen unknown ns',
    parse_args items ns seen unknown = Parsed ns' ->
    unknown = false /\ ~ In Unknown items /\ ~ In Malformed items.
Proof.
  induction items as [|item rest IH]; intros ns seen unknown ns' Hparse.
  - cbn [parse_args] in Hparse. destruct seen; [|discriminate].
    destruct unknown; [discriminate|]. repeat split; intros [].
  - destruct item as [d v| | |]; cbn [parse_args] in Hparse; try discriminate.
    + destruct (store ns d v) as [ns1|]; [|discriminate].
      destruct (IH _ _ _ _ Hparse) as (Hunknown & Hno & Hwell).
      repeat split; [assumption| |];
        intros [Hhead|Htail]; (discriminate || contradiction).
    + destruct (IH _ _ _ _ Hparse) as (Hunknown & _). discriminate.
Qed.

(** A parse meets no obstacle when there is no help flag, nothing is set
    aside or rejected, every string given to an integer option is accepted
    by [int], and [--dir] is seen. *)
Lemma parse_args_returns (items : list cli_item) :
  forall ns seen,
    ~ In HelpFlag items ->
    ~ In Unknown items ->
    ~ In Malformed items ->
    (forall d v, In (Given d v) items -> int_typed d = true -> int v <> None) ->
    seen = true \/ last_value Dir items <> None ->
    exists ns', parse_args items ns seen false = Parsed ns'.
Proof.
  induction items as [|item rest IH]; intros ns seen Hhelp Hno Hwell Hints Hseen.
  - cbn [parse_args]. destruct Hseen as [->|Hseen]; [now exists ns|].
    now destruct Hseen.
  - destruct item as [d v| | |];
      [|destruct Hhelp; now left|destruct Hno; now left|destruct Hwell; now left].
    cbn [parse_args].
    assert (Hstore : exists ns1, store ns d v = Some ns1).
    { destruct d; cbn [store]; try (eexists; reflexivity);
        (destruct (int v) eqn:Eint;
         [eexists; reflexivity
         |destruct (Hints _ v (or_introl eq_refl) eq_refl); exact Eint]). }
    destruct Hstore as [ns1 ->].
    apply IH.
    + intros Hin. apply Hhelp. now right.
    + intros Hin. apply Hno. now right.
    + intros Hin. apply Hwell. now right.
    + intros d0 v0 Hin. apply Hints. now right.
    + cbn [last_value] in Hseen.
      destruct (last_value Dir rest); [right; discriminate|].
      left. destruct Hseen as [->|Hseen]; [reflexivity|].
      destruct d; cbn [dest_eqb] in Hseen; try now destruct Hseen.
      apply orb_true_r.
Qed.

(** The seed and the exploration flag of the namespace [get_args]
    returns. *)
Lemma get_args_fields (items : list cli_item) (ns : namespace) :
  get_args items = Parsed ns ->
  ns_seed ns = match last_value Seed items with
               | Some v => int v | None => None end /\
  ns_explore ns = match last_value Explore items with
                  | Some v => negb (String.eqb v "") | None => false end.
Proof.
  intros Hparse.
  destruct (parse_args_parsed items defaults false false ns Hparse)
    as (_ & _ & Hseed & Hexplore & _).
  now split.
Qed.

Lemma last_value_in (d : dest) (items : list cli_item) (v : string) :
  last_value d items = Some v -> In (Given d v) items.
Proof.
  induction items as [|item rest IH]; [discriminate|].
  destruct item as [d' v'| | |]; cbn [last_value];
    try (intros H; right; now apply IH).
  destruct (last_value d rest) as [later|].
  - intros [= ->]. right. now apply IH.
  - destruct d, d'; cbn [dest_eqb]; try discriminate;
      intros [= ->]; now left.
Qed.

(** The last string given to an integer option of a command line
    [get_args] accepted is an integer. *)
Lemma get_args_accepts (items : list cli_item) (ns : namespace) :
  get_args items = Parsed ns ->
  forall d v, last_value d items = Some v -> int_typed d = true ->
              exists n, int v = Some n.
Proof.
  intros Hparse d v Hlast Htyped.
  destruct (parse_args_parsed items defaults false false ns Hparse)
    as (_ & _ & _ & _ & _ & _ & _ & _ & Hints).
  specialize (Hints d v (last_value_in d items v Hlast) Htyped).
  destruct (int v) as [n|]; [now exists n|now destruct Hints].
Qed.

(** X10.  The namespace [get_args] returns holds, for each option, the
    string of its last occurrence on the command line converted with the
    option's type, and the option's default when it does not occur.  The
    type of [--explore] is [bool]: its value is true for every string but
    the empty one, the string [False] included. *)
Theorem get_args_values (items : list cli_item) (ns : namespace) :
  get_args items = Parsed ns ->
  last_value Dir items = Some (ns_dir ns) /\
  ns_ckpt_num ns = match last_value CkptNum items with
                   | Some v => int v | None => None end /\
  ns_seed ns = match last_value Seed items with
               | Some v => int v | None => None end /\
  ns_explore ns = match last_value Explore items with
                  | Some v => negb (String.eqb v "") | None => false end /\
  ns_output_dir ns = last_value OutputDir items /\
  Some (ns_num_rollouts ns) = match last_value NumRollouts items with
                              | Some v => int v | None => Some 10 end.
Proof.
  intros Hparse.
  destruct (parse_args_parsed items defaults false false ns Hparse)
    as (Hdir & Hckpt & Hseed & Hexplore & Hout & Hnum & Hseen & _).
  repeat split; try assumption.
  - destruct Hseen as [Hseen|Hseen]; [discriminate|].
    destruct (last_value Dir items); [now rewrite Hdir|now destruct Hseen].
  - rewrite Hout. now destruct (last_value OutputDir items).
Qed.

(** X11.  For an ASCII command line, [get_args] returns a namespace
    exactly when the command line has no help flag, no argument the parser
    does not know (an undeclared option, a positional argument), no option
    rejected where it stands (one of the six without its string, the help
    flag with a string), gives [--dir], and gives [--ckpt_num], [--seed]
    and [--num_rollouts] only strings that [int] accepts; otherwise the
    parser leaves through [sys.exit], with code [0] only if a help flag was
    given. *)
Theorem get_args_returns (items : list cli_item) :
  ((exists ns, get_args items = Parsed ns) <->
   ~ In HelpFlag items /\
   ~ In Unknown items /\
   ~ In Malformed items /\
   last_value Dir items <> None /\
   (forall d v, In (Given d v) items -> int_typed d = true -> int v <> None)) /\
  (forall code, get_args items = SystemExit code ->
                code = 2 \/ (code = 0 /\ In HelpFlag items)).
Proof.
  split; [split|].
  - intros [ns Hparse].
    destruct (parse_args_parsed items defaults false false ns Hparse)
      as (_ & _ & _ & _ & _ & _ & Hseen & Hhelp & Hints).
    destruct (parse_args_clean items defaults false false ns Hparse)
      as (_ & Hno & Hwell).
    repeat split; try assumption.
    destruct Hseen as [Hseen|Hseen]; [discriminate|exact Hseen].
  - intros (Hhelp & Hno & Hwell & Hdir & Hints).
    apply parse_args_returns; try assumption. now right.
  - assert (Hexits : forall ns seen unknown code,
               parse_args items ns seen unknown = SystemExit code ->
               code = 2 \/ (code = 0 /\ In HelpFlag items));
      [|intros code; apply Hexits].
    induction items as [|item rest IH]; intros ns seen unknown code Hexit.
    + cbn [parse_args] in Hexit.
      destruct seen, unknown; try discriminate; injection Hexit as <-; now left.
    + destruct item as [d v| | |]; cbn [parse_args] in Hexit.
      * destruct (store ns d v) as [ns1|]; [|injection Hexit as <-; now left].
        destruct (IH _ _ _ _ Hexit) as [->|[-> Hin]]; [now left|].
        right. split; [reflexivity|now right].
      * injection Hexit as <-. right. split; [reflexivity|now left].
      * destruct (IH _ _ _ _ Hexit) as [->|[-> Hin]]; [now left|].
        right. split; [reflexivity|now right].
      * injection Hexit as <-. now left.
Qed.

End CommandLine.

(** ** The script *)

Section ScriptFacts.

Context {C : Collaborators}.
Variable glob : string -> list string.

Local Open Scope string_scope.

(** X12.  When the script reaches the rollouts, it has created the two
    directories, loaded the configuration, restored the checkpoint at
    [ckpt_path], seeded the environment and set the exploration flag, in
    this order.  The seed is the integer of the last [--seed], zero
    included, and only without [--seed] the seed stored in the
    configuration; the exploration flag is true exactly when the last
    [--explore] was given a string that is not empty.  The rollouts write to
    [log_path]. *)
Theorem script_setup (items : list cli_item) (cfg : config) (fuel : nat)
    (agent : AgentState) (env : EnvState) (setup : list setup_event)
    (run : outcome * list event) :
  script glob items cfg fuel agent env = (setup, inr run) ->
  exists (ns : namespace) (p : paths) (seed : config_value),
    get_args items = Parsed ns /\
    main_paths glob (args_of ns) = Ok p /\
    setup = [MakeDirs (eval_dir_path p); MakeDirs (ckpt_eval_dir_path p);
             LoadConfig (ray_config_path p); RayInit;
             BuildTrainer; Restore (ckpt_path p); BuildEnv;
             SeedEnv seed;
             SetExplore (match last_value Explore items with
                         | Some v => negb (String.eqb v "")
                         | None => false
                         end)] /\
    match last_value Seed items with
    | Some v => exists n, int v = Some n /\ seed = IntValue n
    | None => lookup cfg "seed" = Some seed
    end /\
    run = run_rollouts fuel agent env (log_path p) (ns_num_rollouts ns).
Proof.
  unfold script.
  destruct (get_args items) as [ns|code] eqn:Eargs; [|discriminate].
  destruct (main_paths glob (args_of ns)) as [p|e] eqn:Epaths; [|discriminate].
  unfold load_and_configure.
  destruct (lookup cfg "env_config"); [|discriminate].
  destruct (lookup cfg "env"); [|discriminate].
  destruct (get_args_fields items ns Eargs) as (Hseed & Hexplore).
  destruct (ns_seed ns) as [n|] eqn:Ens.
  - intros [= <- <-].
    exists ns, p, (IntValue n).
    repeat split; try assumption.
    + cbn [app]. now rewrite Hexplore.
    + destruct (last_value Seed items) as [v|]; [|discriminate].
      exists n. now split.
  - destruct (lookup cfg "seed") as [v|] eqn:Elookup; [|discriminate].
    intros [= <- <-].
    exists ns, p, v.
    repeat split; try assumption.
    + cbn [app]. now rewrite Hexplore.
    + destruct (last_value Seed items) as [v'|] eqn:Elast; [|reflexivity].
      (* a [--seed] that was accepted would have set the seed *)
      exfalso.
      destruct (get_args_accepts items ns Eargs Seed v' Elast eq_refl) as [n Hn].
      congruence.
Qed.

(** X13.  The script creates nothing before path resolution has
    succeeded: when the parser exits or a resolution function raises, no
    directory was made and nothing was loaded.  When it stops on a missing
    key of the configuration, both directories were made before; a missing
    seed only stops it when [--seed] is not given, and then after the
    checkpoint was restored. *)
Theorem script_stops (items : list cli_item) (cfg : config) (fuel : nat)
    (agent : AgentState) (env : EnvState) (setup : list setup_event)
    (why : stop) :
  script glob items cfg fuel agent env = (setup, inl why) ->
  match why with
  | Exited code => setup = [] /\ get_args items = SystemExit code
  | Raised e =>
      setup = [] /\
      exists ns, get_args items = Parsed ns /\
                 main_paths glob (args_of ns) = Raise e
  | KeyError key =>
      exists p rest,
        setup = MakeDirs (eval_dir_path p) :: MakeDirs (ckpt_eval_dir_path p)
                :: LoadConfig (ray_config_path p) :: RayInit :: rest /\
        lookup cfg key = None /\
        (key = "seed" ->
         last_value Seed items = None /\
         rest = [BuildTrainer; Restore (ckpt_path p); BuildEnv])
  end.
Proof.
  unfold script.
  destruct (get_args items) as [ns|code] eqn:Eargs.
  2:{ intros [= <- <-]. now split. }
  destruct (main_paths glob (args_of ns)) as [p|e] eqn:Epaths.
  2:{ intros [= <- <-]. split; [reflexivity|]. now exists ns. }
  unfold load_and_configure.
  destruct (lookup cfg "env_config") eqn:Econfig.
  2:{ intros [= <- <-]. exists p, []. repeat split; [assumption|discriminate..]. }
  destruct (lookup cfg "env") eqn:Eenv.
  2:{ intros [= <- <-]. exists p, []. repeat split; [assumption|discriminate..]. }
  destruct (get_args_fields items ns Eargs) as (Hseed & _).
  destruct (ns_seed ns) as [n|] eqn:Ens; [discriminate|].
  destruct (lookup cfg "seed") eqn:Elookup; [discriminate|].
  intros [= <- <-].
  exists p, [BuildTrainer; Restore (ckpt_path p); BuildEnv].
  repeat split; [assumption|].
  destruct (last_value Seed items) as [v'|] eqn:Elast; [|reflexivity].
  exfalso.
  destruct (get_args_accepts items ns Eargs Seed v' Elast eq_refl) as [n Hn].
  congruence.
Qed.

End ScriptFacts.

(** ** More on [main] *)

Section MainRuns.

Context {C : Collaborators}.
Variable glob : string -> list string.

Local Open Scope string_scope.

(** X14.  With [--num_rollouts] zero or negative [main] resolves the paths
    as usual and the rollout runner does nothing: the environment is not
    reset, no action is computed and the log file is not opened, so no
    [eval.log] comes out of the run. *)
Theorem main_no_rollouts (fuel : nat) (agent : AgentState) (env : EnvState)
    (a : args) (res : outcome) (tr : list event) :
  arg_num_rollouts a <= 0 ->
  main glob fuel agent env a = Ok (res, tr) ->
  res = Some (agent, env) /\ tr = [].
Proof.
  intros Hnone Hmain.
  unfold main in Hmain.
  destruct (main_paths glob a) as [p|e]; [|discriminate].
  cbn [bind] in Hmain. injection Hmain as Hrun.
  unfold run_rollouts, range in Hrun.
  replace (Z.to_nat (arg_num_rollouts a)) with 0%nat in Hrun by lia.
  cbn [seq map rollouts] in Hrun.
  injection Hrun as <- <-. now split.
Qed.

(** X15.  Without [--output_dir] the log is
    [os.path.join(os.path.join(expr_dir_path, 'eval'), 'ckpt_<n>')
    + '/eval.log'], where [expr_dir_path] is the directory
    [verify_experiment_dir] returned and [n] the number
    [find_checkpoint_dir] returned: [{expr_dir_path}/eval/ckpt_<n>/eval.log]
    for a directory path that is not empty and does not end in a
    separator.  Every open of the log by the rollouts is an open of that
    path. *)
Theorem main_default_log_path (fuel : nat) (agent : AgentState)
    (env : EnvState) (a : args) (res : outcome) (tr : list event) :
  arg_output_dir a = None ->
  main glob fuel agent env a = Ok (res, tr) ->
  exists (dir : string) (n : Z) (s : option string),
    verify_experiment_dir glob (arg_dir a) = Ok dir /\
    find_checkpoint_dir glob dir (arg_ckpt_num a) = Ok (n, s) /\
    Forall (fun path =>
              path = path_join (path_join dir "eval") ("ckpt_" ++ str n) ++ "/eval.log")
           (opened tr) /\
    (dir <> "" -> ends_with_sep dir = false ->
     path_join (path_join dir "eval") ("ckpt_" ++ str n) ++ "/eval.log"
     = dir ++ "/eval/ckpt_" ++ str n ++ "/eval.log").
Proof.
  intros Hout Hmain.
  unfold main in Hmain.
  destruct (main_paths glob a) as [p|e] eqn:Hp; [|discriminate].
  cbn [bind] in Hmain. injection Hmain as Hrun.
  destruct (main_paths_inv glob a p Hp) as (Hdir & [s Hckpt] & Hlog & _).
  destruct (main_paths_resolved glob a _ _ _ Hdir Hckpt)
    as (p' & Hp' & _ & _ & _ & _ & _ & _ & Hdefault).
  rewrite Hp in Hp'. injection Hp' as <-.
  destruct (Hdefault Hout) as [_ Heval].
  exists (expr_dir_path p), (resolved_ckpt_num p), s.
  split; [exact Hdir|]. split; [exact Hckpt|]. split.
  - rewrite <- Heval, <- Hlog.
    replace tr with (snd (run_rollouts fuel agent env (log_path p) (arg_num_rollouts a)))
      by now rewrite Hrun.
    apply run_rollouts_opened.
  - intros Hne Hend.
    rewrite (path_join_plain (expr_dir_path p) "eval") by (assumption || reflexivity).
    rewrite path_join_plain.
    + now rewrite !append_assoc.
    + exact (append_nonempty _ "/"%char "eval").
    + exact (ends_with_sep_append _ "/"%char "eval").
    + reflexivity.
Qed.

End MainRuns.

(** ** The further properties on concrete inputs *)

Section ConcreteMore.

Import Examples MoreExamples.

Local Open Scope string_scope.

(** X1 on the three checkpoints of [tree_three]. *)
Lemma find_checkpoint_dir_latest_consistent_witness :
  find_checkpoint_dir (RefFS.glob tree_three) "/exp" None = Ok (12, Some "12") /\
  bounded_by 12 (RefFS.glob tree_three "/exp/checkpoint_*") /\
  ((12 = -1 /\ Some "12" = None) \/
   (0 <= 12 /\
    exists m, In m (RefFS.glob tree_three "/exp/checkpoint_*") /\
              Some "12" = Some (last_field m) /\ int (last_field m) = Some 12)).
Proof.
  split; [reflexivity|].
  apply (find_checkpoint_dir_latest_consistent (RefFS.glob tree_three) "/exp").
  reflexivity.
Defined.

(** X2 on the numbers 5, 12, 7. *)
Lemma find_checkpoint_dir_numbered_witness :
  RefFS.glob tree_three "/exp/checkpoint_*"
  = map (fun n => "/exp" ++ "/checkpoint_" ++ str n) [5; 12; 7] /\
  exists best,
    In best [5; 12; 7] /\
    Forall (fun n => n <= best) [5; 12; 7] /\
    find_checkpoint_dir (RefFS.glob tree_three) "/exp" None
    = Ok (best, Some (str best)).
Proof.
  split; [reflexivity|].
  apply (find_checkpoint_dir_numbered (RefFS.glob tree_three) "/exp" [5; 12; 7]).
  - reflexivity.
  - repeat constructor; discriminate.
  - discriminate.
Defined.

(** The string depends on the listing order when two suffixes read as
    the same number. *)
Example select_latest_padded :
  find_checkpoint_dir (RefFS.glob tree_padded) "/exp" None = Ok (7, Some "07") /\
  find_checkpoint_dir (RefFS.glob tree_padded_reversed) "/exp" None
  = Ok (7, Some "7").
Proof. split; reflexivity. Qed.

(** X3 on [tree_three] and the same directory listed backwards: the
    number and the string are the same. *)
Lemma find_checkpoint_dir_listing_order_witness :
  RefFS.glob tree_three_reversed "/exp/checkpoint_*"
  = rev (RefFS.glob tree_three "/exp/checkpoint_*") /\
  find_checkpoint_dir (RefFS.glob tree_three) "/exp" None = Ok (12, Some "12") /\
  find_checkpoint_dir (RefFS.glob tree_three_reversed) "/exp" None
  = Ok (12, Some "12").
Proof.
  split; [reflexivity|]. split; [reflexivity|].
  destruct (proj1 (find_checkpoint_dir_listing_order
                     (RefFS.glob tree_three) (RefFS.glob tree_three_reversed) "/exp"
                     (Permutation_rev (RefFS.glob tree_three "/exp/checkpoint_*")))
              12 (Some "12") eq_refl)
    as (s' & Hrun & _ & _ & Hsame).
  rewrite Hrun. f_equal. f_equal. apply Hsame.
  intros m m' [<-|[<-|[<-|[]]]] [<-|[<-|[<-|[]]]] Hm Hm';
    try reflexivity; vm_compute in Hm; vm_compute in Hm'; discriminate.
Defined.

(** X4: requesting 21 where the directory is [checkpoint_old_21]. *)
Lemma main_requested_checkpoint_dir_witness :
  RefFS.glob tree_old_21 "/exp/checkpoint_*21" = ["/exp/checkpoint_old_21"] /\
  exists p,
    main_paths (RefFS.glob tree_old_21) args_request_21 = Ok p /\
    ckpt_dir p = "checkpoint_" ++ last_field "old_21" /\
    ckpt_filename p = "checkpoint-" ++ str 21 /\
    ckpt_path p
    = path_join (path_join "/exp" (ckpt_dir p)) ("checkpoint-" ++ str 21) /\
    (ckpt_dir p = "checkpoint_" ++ "old_21" <-> contains "_" "old_21" = false).
Proof.
  split; [reflexivity|].
  apply (main_requested_checkpoint_dir (RefFS.glob tree_old_21) args_request_21
           "/exp" 21 "/exp" "old_21"); reflexivity.
Defined.

(** X7: two rollouts are one rollout followed by the rollout numbered 1. *)
Lemma run_rollouts_extend_witness :
  one_rollout = (Some (tt, 0%nat), snd one_rollout) /\
  @run_rollouts (stub 2) 2 tt 0%nat "/exp/eval/ckpt_12/eval.log" (1 + 1)
  = (fst second_rollout, (snd one_rollout ++ snd second_rollout)%list).
Proof.
  split; [reflexivity|].
  apply (@run_rollouts_extend (stub 2) 2 tt 0%nat "/exp/eval/ckpt_12/eval.log"
           1 1 tt 0%nat (snd one_rollout)).
  - lia.
  - lia.
  - reflexivity.
Defined.

(** X8: the configuration file of the run found under [/runs]. *)
Lemma main_config_exists_witness :
  (exists p, main_paths (RefFS.glob tree_one_child) args_runs = Ok p /\
             ray_config_path p = "/runs/a/params.pkl") /\
  RefFS.lexists tree_one_child "/runs/a/params.pkl" = true.
Proof.
  split; [eexists; split; reflexivity|].
  refine (main_config_exists tree_one_child args_runs _ _ _ _ _ eq_refl).
  - reflexivity.
  - discriminate.
  - reflexivity.
  - repeat constructor.
Defined.

(** X9: verifying [/runs] gives [/runs/a], verifying [/runs/a] gives
    [/runs/a]. *)
Lemma verify_experiment_dir_idempotent_witness :
  verify_experiment_dir (RefFS.glob tree_one_child) "/runs" = Ok "/runs/a" /\
  verify_experiment_dir (RefFS.glob tree_one_child) "/runs/a" = Ok "/runs/a".
Proof.
  split; [reflexivity|].
  apply (verify_experiment_dir_idempotent tree_one_child "/runs" "/runs/a").
  - reflexivity.
  - discriminate.
  - reflexivity.
  - repeat constructor.
  - reflexivity.
Defined.

(** X10: [--explore False] sets [explore] to true, [--seed 0] is kept. *)
Lemma get_args_values_witness :
  get_args cli_explore
  = Parsed {| ns_dir := "/exp"; ns_ckpt_num := None; ns_seed := Some 0;
              ns_explore := true; ns_output_dir := None;
              ns_num_rollouts := 1 |} /\
  last_value Explore cli_explore = Some "False" /\
  last_value Dir cli_explore = Some "/exp" /\
  @None Z = None /\ Some 0 = int "0" /\ true = negb (String.eqb "False" "") /\
  @None string = last_value OutputDir cli_explore /\ Some 1 = int "1".
Proof.
  split; [reflexivity|]. split; [reflexivity|].
  apply (get_args_values cli_explore
           {| ns_dir := "/exp"; ns_ckpt_num := None; ns_seed := Some 0;
              ns_explore := true; ns_output_dir := None;
              ns_num_rollouts := 1 |}).
  reflexivity.
Defined.

(** X12: the script with [--explore False --seed 0] on [tree_three]. *)
Lemma script_setup_witness :
  fst explore_run
  = [MakeDirs "/exp/eval"; MakeDirs "/exp/eval/ckpt_12";
     LoadConfig "/exp/params.pkl"; RayInit;
     BuildTrainer; Restore "/exp/checkpoint_12/checkpoint-12"; BuildEnv;
     SeedEnv (IntValue 0); SetExplore true] /\
  exists (ns : namespace) (p : paths) (seed : config_value),
    get_args cli_explore = Parsed ns /\
    main_paths (RefFS.glob tree_three) (args_of ns) = Ok p /\
    fst explore_run
    = [MakeDirs (eval_dir_path p); MakeDirs (ckpt_eval_dir_path p);
       LoadConfig (ray_config_path p); RayInit;
       BuildTrainer; Restore (ckpt_path p); BuildEnv;
       SeedEnv seed; SetExplore true] /\
    (exists n, int "0" = Some n /\ seed = IntValue n) /\
    @run_rollouts (stub 2) 2 tt 0%nat "/exp/eval/ckpt_12/eval.log" 1
    = @run_rollouts (stub 2) 2 tt 0%nat (log_path p) (ns_num_rollouts ns).
Proof.
  split; [reflexivity|].
  apply (@script_setup (stub 2) (RefFS.glob tree_three) cli_explore config_seeded
           2 tt 0%nat (fst explore_run)
           (@run_rollouts (stub 2) 2 tt 0%nat "/exp/eval/ckpt_12/eval.log" 1)).
  reflexivity.
Defined.

(** X13: without [--seed] and without a stored seed the script stops on
    the missing key, after the directories were made and the checkpoint
    restored. *)
Lemma script_stops_witness :
  @script (stub 2) (RefFS.glob tree_three) cli_plain config_unseeded 2 tt 0%nat
  = ([MakeDirs "/exp/eval"; MakeDirs "/exp/eval/ckpt_12";
      LoadConfig "/exp/params.pkl"; RayInit;
      BuildTrainer; Restore "/exp/checkpoint_12/checkpoint-12"; BuildEnv],
     inl (KeyError "seed")) /\
  exists p rest,
    [MakeDirs "/exp/eval"; MakeDirs "/exp/eval/ckpt_12";
     LoadConfig "/exp/params.pkl"; RayInit;
     BuildTrainer; Restore "/exp/checkpoint_12/checkpoint-12"; BuildEnv]
    = MakeDirs (eval_dir_path p) :: MakeDirs (ckpt_eval_dir_path p)
      :: LoadConfig (ray_config_path p) :: RayInit :: rest /\
    lookup config_unseeded "seed" = None /\
    ("seed" = "seed" ->
     last_value Seed cli_plain = None /\
     rest = [BuildTrainer; Restore (ckpt_path p); BuildEnv]).
Proof.
  split; [reflexivity|].
  apply (@script_stops (stub 2) (RefFS.glob tree_three) cli_plain config_unseeded
           2 tt 0%nat _ (KeyError "seed")).
  reflexivity.
Defined.

(** X14: [--num_rollouts 0] on [tree_three]. *)
Lemma main_no_rollouts_witness :
  @main (stub 2) (RefFS.glob tree_three) 2 tt 0%nat args_no_rollouts
  = Ok (Some (tt, 0%nat), []) /\
  Some (tt, 0%nat) = Some (tt, 0%nat) /\ @nil (@event (stub 2)) = [].
Proof.
  split; [reflexivity|].
  apply (@main_no_rollouts (stub 2) (RefFS.glob tree_three) 2 tt 0%nat
           args_no_rollouts).
  - discriminate.
  - reflexivity.
Defined.

(** X15: the default log of checkpoint 12 of [/exp]. *)
Lemma main_default_log_path_witness :
  exists (dir : string) (n : Z) (s : option string),
    verify_experiment_dir (RefFS.glob tree_three) "/exp" = Ok dir /\
    find_checkpoint_dir (RefFS.glob tree_three) dir None = Ok (n, s) /\
    Forall (fun path =>
              path = path_join (path_join dir "eval") ("ckpt_" ++ str n) ++ "/eval.log")
           ["/exp/eval/ckpt_12/eval.log"; "/exp/eval/ckpt_12/eval.log"] /\
    (dir <> "" -> ends_with_sep dir = false ->
     path_join (path_join dir "eval") ("ckpt_" ++ str n) ++ "/eval.log"
     = dir ++ "/eval/ckpt_" ++ str n ++ "/eval.log").
Proof.
  apply (@main_default_log_path (stub 2) (RefFS.glob tree_three) 2 tt 0%nat
           args_default (Some (tt, 0%nat))
           (snd (@run_rollouts (stub 2) 2 tt 0%nat "/exp/eval/ckpt_12/eval.log" 2))).
  - reflexivity.
  - reflexivity.
Defined.

(** X16: the parent directory [/runs] with the one run [a]. *)
Lemma verify_experiment_dir_on_tree_witness :
  verify_experiment_dir (RefFS.glob tree_one_child) "/runs" = Ok "/runs/a" /\
  RefFS.artifact_children tree_one_child "/runs" = ["a"].
Proof.
  split; [|reflexivity].
  refine (eq_trans (verify_experiment_dir_on_tree tree_one_child "/runs" _ _ _ _) _).
  - reflexivity.
  - discriminate.
  - reflexivity.
  - repeat constructor.
  - reflexivity.
Defined.

(** X17: requesting 1 where the only entry is [checkpoint_21]. *)
Lemma find_checkpoint_dir_requested_on_tree_witness :
  RefFS.checkpoint_entries tree_21 "/exp" (str 1) = ["checkpoint_21"] /\
  find_checkpoint_dir (RefFS.glob tree_21) "/exp" (Some 1) = Ok (1, Some "21").
Proof.
  split; [reflexivity|].
  refine (eq_trans (find_checkpoint_dir_requested_on_tree tree_21 "/exp" 1 _ _ _) _).
  - reflexivity.
  - discriminate.
  - reflexivity.
  - reflexivity.
Defined.

End ConcreteMore.
